(** * Flow machines: the builders of FlowRunner and FlowRunnerWithData

    A shallow embedding of the three machine builders of the repository
    ([createFlowMachineWithData], [createFlowMachine], [makeFlowMachine])
    together with a model of the statechart runtime they hand their
    transition table to, and the properties of the built machines. *)

From Stdlib Require Import String Ascii ZArith.
From stdpp Require Import base option list strings gmap fin_maps.

Open Scope string_scope.
Open Scope list_scope.

(** ** JavaScript values and array helpers used by the builders *)

Module Js.

(** A thrown [Error]: only its message is kept. *)
Inductive Result (A : Type) : Type :=
| Ok (a : A)
| Throw (message : string).
Arguments Ok {A} a.
Arguments Throw {A} message.


(** The console: the builders and the handlers they install call
    [console.error] and [console.warn]. *)
Inductive Level := ConsoleError | ConsoleWarn.
Definition Console := list (Level * string).

(** Strings are sequences of code units; the code units of this model
    are the 256 values of [ascii].  White space, as [String.prototype.trim]
    removes it, is then TAB, LF, VT, FF, CR, SP and NBSP. *)
Definition is_white_space (c : ascii) : bool :=
  let n := N_of_ascii c in
  ((9 <=? n) && (n <=? 13) || (n =? 32) || (n =? 160))%N.

Fixpoint trimStart (s : string) : string :=
  match s with
  | String c s' => if is_white_space c then trimStart s' else s
  | EmptyString => EmptyString
  end.

Fixpoint trimEnd (s : string) : string :=
  match s with
  | EmptyString => EmptyString
  | String c s' =>
      match trimEnd s' with
      | EmptyString => if is_white_space c then EmptyString else String c EmptyString
      | r => String c r
      end
  end.

Definition trim (s : string) : string := trimEnd (trimStart s).

(** A string is truthy unless it is empty; [undefined] is falsy. *)
Definition truthy (o : option string) : bool :=
  match o with
  | Some s => negb (String.eqb s "")
  | None => false
  end.

(** [xs.indexOf(x)]: the first index holding [x], or -1. *)
Fixpoint indexOf_from (i : Z) (xs : list string) (x : string) : Z :=
  match xs with
  | [] => (-1)%Z
  | y :: ys => if String.eqb y x then i else indexOf_from (i + 1)%Z ys x
  end.
Definition indexOf (xs : list string) (x : string) : Z := indexOf_from 0 xs x.

(** [xs.find((x, i) => p(x, i))]: the first element accepted, or
    [undefined]. *)
Fixpoint find_from {A} (p : A → Z → bool) (i : Z) (xs : list A) : option A :=
  match xs with
  | [] => None
  | x :: xs' => if p x i then Some x else find_from p (i + 1)%Z xs'
  end.
Definition find {A} (p : A → Z → bool) (xs : list A) : option A := find_from p 0 xs.

(** [xs.includes(x)] and [xs.join(sep)]. *)
Definition includes (xs : list string) (x : string) : bool :=
  existsb (String.eqb x) xs.

Fixpoint join (sep : string) (xs : list string) : string :=
  match xs with
  | [] => ""
  | [x] => x
  | x :: xs' => x +:+ sep +:+ join sep xs'
  end.

(** [Object.fromEntries(entries)]: entries are written left to right, a
    later entry replaces an earlier one with the same key. *)
(** The property names every plain object inherits from
    [Object.prototype]: [o[k]] finds something under each of them, whether
    or not [k] is a key of [o]. *)
Definition object_member (k : string) : bool :=
  includes [ "constructor"; "__proto__"; "hasOwnProperty"; "isPrototypeOf";
             "propertyIsEnumerable"; "toLocaleString"; "toString"; "valueOf";
             "__defineGetter__"; "__defineSetter__"; "__lookupGetter__";
             "__lookupSetter__" ] k.

Definition fromEntries {A} (entries : list (string * A)) : gmap string A :=
  foldl (λ o e, <[e.1 := e.2]> o) ∅ entries.

End Js.
Import Js.

(** ** The flow specification *)

Record FlowSpec := {
  name : string;
  to : list string;
  terminal : option bool;          (* [terminal?: boolean] *)
}.

(** [s.terminal ? ... : ...] and [!!s.terminal]. *)
Definition is_terminal (s : FlowSpec) : bool := default false (terminal s).

Definition norm (s : string) : string := trim s.

Definition normalizeSpecs (specs : list FlowSpec) : list FlowSpec :=
  map (λ s, {| name := norm (name s);
               terminal := Some (is_terminal s);
               to := map norm (to s) |}) specs.

(** [names.find((n, i) => names.indexOf(n) !== i)] *)
Definition find_dup (names : list string) : option string :=
  find (λ n i, negb (indexOf names n =? i)%Z) names.

(** ** The statechart runtime

    The builders end in [createMachine(config)], and the page runs the
    result with [createActor(machine).start()] and [actor.send(event)].
    That runtime is the xstate library (version 5); what follows is its
    behaviour on the configurations the builders produce: one level of
    states under the root, each with an [on] table or [{ type: "final" }],
    and an [on] table at the root.

    - [createMachine] refuses a configuration whose [initial] is the empty
      string (it is falsy), one with the empty string as a key of an [on]
      table, and one with a transition whose target does not resolve.  The
      empty target is "no target".  Any other target must be the key of a
      state.  The runtime reads ['.'] and a leading ['#'] in a target as
      path and id syntax, and ['\'] as an escape; the model follows no
      paths: a target that contains one of these does not resolve in it,
      and the properties below are about targets without them.  The
      states are kept in a plain object and a target is looked up with
      [states[target]], so that the member names of [Object.prototype]
      resolve as well, to something that is no state.
    - The keys of an [on] table are event descriptors: the event type
      itself comes first; otherwise ["*"] and the descriptors ["a.b.*"]
      that match the tokens of the event type are tried, longest first.
    - A state's own [on] table is consulted first, the root's [on] table
      only when the state selects nothing.
    - Among the candidates of an event the first whose guard holds (or
      that has none) is taken; with no candidate the event is ignored.  A
      guard is called with [{ context, event }] and nothing else.
    - A transition without target runs its actions and stays in the state.
    - Reaching a [{ type: "final" }] state of the root completes the
      machine: the actor stops and ignores every later event.
    - An exception raised while a transition is computed puts the actor in
      its error status, with state and context as they were.

    The messages of the runtime's own errors are abridged: the properties
    below use the fact that it throws, not its words.  The console of the
    model holds what the code of the repository writes.  The event types
    the runtime keeps for itself (["*"], which it refuses as the type of
    an event in development builds, and the types that start with
    ["xstate."], which drive the actor) are never sent by the page; they
    are [reserved] below, and the model is about the other events. *)

Module Xstate.

(** The characters that make a target a path or an id. *)
Fixpoint has_char (c : ascii) (s : string) : bool :=
  match s with
  | EmptyString => false
  | String c' s' => Ascii.eqb c' c || has_char c s'
  end.

Definition starts_with_hash (s : string) : bool :=
  match s with
  | String c _ => Ascii.eqb c "#"
  | EmptyString => false
  end.

Definition path_free (t : string) : bool :=
  negb (has_char "." t) && negb (has_char "\" t) && negb (starts_with_hash t).

(** The event types of the runtime itself. *)
Definition reserved (eventType : string) : bool :=
  String.eqb eventType "*" || String.prefix "xstate." eventType.

(** [s.split(".")] *)
Fixpoint split_dots (s : string) : list string :=
  match s with
  | EmptyString => [EmptyString]
  | String c s' =>
      if Ascii.eqb c "." then EmptyString :: split_dots s'
      else match split_dots s' with
           | token :: rest => String c token :: rest
           | [] => [String c EmptyString]
           end
  end.

(** [descriptor.endsWith(".*")] *)
Fixpoint ends_with_dot_star (s : string) : bool :=
  match s with
  | EmptyString => false
  | String c s' => (Ascii.eqb c "." && String.eqb s' "*") || ends_with_dot_star s'
  end.

(** The loop over the tokens of a descriptor that ends in [".*"]. *)
Fixpoint match_tokens (descriptor event : list string) : bool :=
  match descriptor with
  | [] => true
  | d :: descriptor' =>
      if String.eqb d "*"
      then match descriptor' with [] => true | _ => false end
      else match event with
           | e :: event' => if String.eqb d e then match_tokens descriptor' event' else false
           | [] => false
           end
  end.

Definition matches_descriptor (eventType descriptor : string) : bool :=
  String.eqb descriptor eventType || String.eqb descriptor "*" ||
  (ends_with_dot_star descriptor &&
   match_tokens (split_dots descriptor) (split_dots eventType)).

(** [entries.sort((a, b) => b[0].length - a[0].length)], a stable sort. *)
Fixpoint insert_longest {A} (x : string * A) (l : list (string * A)) : list (string * A) :=
  match l with
  | [] => [x]
  | y :: l' =>
      if (String.length y.1 <=? String.length x.1)%nat then x :: y :: l'
      else y :: insert_longest x l'
  end.

Definition longest_first {A} (l : list (string * A)) : list (string * A) :=
  foldr insert_longest [] l.

Section Runtime.
Context {C V : Type}.            (* the machine context, the value an event carries *)

Record Event := { type : string; value : V }.

Inductive Status := Active | Done | Error (message : string).

Record Snapshot := {
  snap_value : string;           (* [snapshot.value]: the current state *)
  snap_context : C;              (* [snapshot.context] *)
  status : Status;
}.

(** What a guard is called with: [{ context, event }].  A guard that takes
    [self] from this argument finds it undefined. *)
Record GuardArgs := {
  guard_context : C;
  guard_event : Event;
  guard_self : option Snapshot;
}.

Inductive Action :=
| assign (assigner : C → Event → Result C)
| call (output : Console).       (* a function action that only writes to the console *)

Record TransitionConfig := {
  guard : option (GuardArgs → Result bool);
  target : option string;
  actions : list Action;
}.

Inductive StateNodeConfig :=
| final                                           (* [{ type: "final" }] *)
| node (on : gmap string (list TransitionConfig)). (* [{ on }] *)

Record MachineConfig := {
  id : string;
  context : C;
  initial : string;
  states : gmap string StateNodeConfig;
  on : gmap string (list TransitionConfig);
}.

(** The target of a transition resolves: there is none, it is empty, or
    it has no path or id syntax in it and [states[target]] finds
    something. *)
Definition target_resolves (config : MachineConfig) (t : TransitionConfig) : bool :=
  match target t with
  | None => true
  | Some v =>
      String.eqb v "" ||
      (path_free v && (bool_decide (is_Some (states config !! v)) || object_member v))
  end.

(** An [on] table is accepted: no key is the empty string (the "null
    event") and every target resolves. *)
Definition table_accepted (config : MachineConfig)
    (table : gmap string (list TransitionConfig)) : bool :=
  bool_decide (map_Forall (λ k ts, k ≠ "" ∧ forallb (target_resolves config) ts = true)
                          table).

Definition node_accepted (config : MachineConfig) (n : StateNodeConfig) : bool :=
  match n with
  | final => true
  | node table => table_accepted config table
  end.

(** [createMachine(config)]: the machine is the configuration, once the
    runtime has accepted it. *)
Definition createMachine (config : MachineConfig) : Result MachineConfig :=
  if String.eqb (initial config) ""
  then Throw ("No initial state specified for compound state node '#" +:+ id config +:+ "'")
  else if bool_decide (map_Forall (λ _ n, node_accepted config n = true) (states config))
          && table_accepted config (on config)
  then Ok config
  else Throw ("Invalid transition definition on '" +:+ id config +:+ "'").

Definition status_of (m : MachineConfig) (v : string) : Status :=
  match states m !! v with
  | Some final => Done
  | Some (node _) => Active
  | None => Error ("Child state '" +:+ v +:+ "' does not exist on '" +:+ id m +:+ "'")
  end.

Definition failed (s : Snapshot) (err : string) : Snapshot :=
  {| snap_value := snap_value s; snap_context := snap_context s; status := Error err |}.

Definition getInitialSnapshot (m : MachineConfig) : Snapshot :=
  {| snap_value := initial m; snap_context := context m;
     status := status_of m (initial m) |}.

(** The candidates of an event in a table: the entry of the event type,
    or else the entries of the matching descriptors, longest first. *)
Definition candidates (table : gmap string (list TransitionConfig))
    (eventType : string) : list TransitionConfig :=
  match table !! eventType with
  | Some ts => ts
  | None =>
      flat_map snd
        (longest_first
           (List.filter (λ entry, matches_descriptor eventType entry.1)
                        (map_to_list table)))
  end.

(** The first candidate whose guard holds; a guard that throws ends the
    search with its error. *)
Fixpoint first_enabled (args : GuardArgs) (ts : list TransitionConfig)
    : Result (option TransitionConfig) :=
  match ts with
  | [] => Ok None
  | t :: ts' =>
      match guard t with
      | None => Ok (Some t)
      | Some g =>
          match g args with
          | Ok true => Ok (Some t)
          | Ok false => first_enabled args ts'
          | Throw err =>
              Throw ("Unable to evaluate guard in transition for event '"
                     +:+ type (guard_event args) +:+ "': " +:+ err)
          end
      end
  end.

(** The transition a table selects for an event. *)
Definition next (table : gmap string (list TransitionConfig))
    (args : GuardArgs) : Result (option TransitionConfig) :=
  first_enabled args (candidates table (type (guard_event args))).

Definition select (m : MachineConfig) (s : Snapshot) (e : Event)
    : Result (option TransitionConfig) :=
  let args := {| guard_context := snap_context s; guard_event := e;
                 guard_self := None |} in
  let own := match states m !! snap_value s with
             | Some (node table) => next table args
             | _ => Ok None
             end in
  match own with
  | Ok None => next (on m) args
  | selected => selected
  end.

Fixpoint run_actions (acts : list Action) (c : C) (e : Event)
    : Result (C * Console) :=
  match acts with
  | [] => Ok (c, [])
  | assign f :: rest =>
      match f c e with
      | Ok c' => run_actions rest c' e
      | Throw err => Throw err
      end
  | call out :: rest =>
      match run_actions rest c e with
      | Ok (c', out') => Ok (c', (out ++ out')%list)
      | Throw err => Throw err
      end
  end.

(** Where a transition leads: nowhere without a target or with the empty
    target. *)
Definition destination (t : TransitionConfig) : option string :=
  match target t with
  | Some v => if String.eqb v "" then None else Some v
  | None => None
  end.

(** One event, on a running machine: the next snapshot and what was
    written to the console. *)
Definition transition (m : MachineConfig) (s : Snapshot) (e : Event)
    : Snapshot * Console :=
  match select m s e with
  | Throw err => (failed s err, [])
  | Ok None => (s, [])
  | Ok (Some t) =>
      match run_actions (actions t) (snap_context s) e with
      | Throw err => (failed s err, [])
      | Ok (c, out) =>
          match destination t with
          | Some v =>
              match status_of m v with
              | Error err => (failed s err, [])
              | entered => ({| snap_value := v; snap_context := c; status := entered |}, out)
              end
          | None =>
              ({| snap_value := snap_value s; snap_context := c;
                  status := status s |}, out)
          end
      end
  end.

(** The running actor and the console. *)
Record Actor := { getSnapshot : Snapshot; console : Console }.

(** [createActor(machine).start()] *)
Definition start (m : MachineConfig) : Actor :=
  {| getSnapshot := getInitialSnapshot m; console := [] |}.

(** [actor.send(event)]: a stopped actor ignores the event. *)
Definition send (m : MachineConfig) (a : Actor) (e : Event) : Actor :=
  match status (getSnapshot a) with
  | Active =>
      let r := transition m (getSnapshot a) e in
      {| getSnapshot := r.1; console := (console a ++ r.2)%list |}
  | _ => a
  end.

Definition run (m : MachineConfig) (a : Actor) (es : list Event) : Actor :=
  foldl (send m) a es.

End Runtime.
Arguments Event : clear implicits.
Arguments Snapshot : clear implicits.
Arguments GuardArgs : clear implicits.
Arguments Action : clear implicits.
Arguments TransitionConfig : clear implicits.
Arguments StateNodeConfig : clear implicits.
Arguments MachineConfig : clear implicits.
Arguments Actor : clear implicits.
End Xstate.
Import Xstate.

(** The transition installed for one edge: [{ target: t }]. *)
Definition edge {C V} (t : string) : list (TransitionConfig C V) :=
  [ {| guard := None; target := Some t; actions := [] |} ].

(** [Object.fromEntries(s.to.map((t) => [`TO_${t}`, { target: t }]))] *)
Definition edges {C V} (s : FlowSpec) : gmap string (list (TransitionConfig C V)) :=
  fromEntries (map (λ t, ("TO_" +:+ t, edge t)) (to s)).

(** [byName.has(t)] for [byName = new Map(specs.map((s) => [s.name, s]))] *)
Definition declared (specs : list FlowSpec) (t : string) : bool :=
  includes (map name specs) t.

(** ** [createFlowMachineWithData]: the builder with attached data *)

Module WithData.
Section Builder.
Context {D V : Type}.            (* the attached data, the value an update event carries *)

(** The machine context, [{ data }]. *)
Record DataContext := { data : D }.

(** [(data, value, currentState) => newData] *)
Definition Updater := D → V → string → D.

(** [String(self.getSnapshot().value)] as the assigner of a restricted
    event evaluates it.  That arrow function takes [{ context, event }]
    only, and neither the builder nor the module binds [self]: the name
    denotes the global [self] of the page, the window, which has no
    [getSnapshot].  The call raises a TypeError. *)
Definition global_self_state : Result string :=
  Throw "self.getSnapshot is not a function".

(** The candidates installed for an update event whose allowed list is
    not empty: the guarded assignment, then the warning.  The guard is
    [({ self }) => allowed.includes(String(self.getSnapshot().value))]: it
    takes [self] from its argument and raises when there is none. *)
Definition restricted_update (eventType : string) (updater : Updater)
    (allowed : list string) : list (TransitionConfig DataContext V) :=
  [ {| guard :=
         Some (λ args,
           match guard_self args with
           | Some self => Ok (includes allowed (snap_value self))
           | None => Throw "Cannot read properties of undefined (reading 'getSnapshot')"
           end);
       target := None;
       actions :=
         [ assign (λ c e,
             match global_self_state with
             | Ok current => Ok {| data := updater (data c) (value e) current |}
             | Throw err => Throw err
             end) ] |};
    {| guard := None;
       target := None;
       actions :=
         [ call [ (ConsoleWarn,
                   "[FlowRunnerWithData] '" +:+ eventType +:+ "' ignored in this state") ] ] |} ].

(** The single candidate installed otherwise. *)
Definition free_update (updater : Updater) : list (TransitionConfig DataContext V) :=
  [ {| guard := None;
       target := None;
       actions := [ assign (λ c e, Ok {| data := updater (data c) (value e) "" |}) ] |} ].

(** The body of the loop over [Object.entries(updates ?? {})].  Both
    maps are read as the maps of their own entries. *)
Definition update_handler (restricted : option (gmap string (list string)))
    (eventType : string) (updater : Updater) : list (TransitionConfig DataContext V) :=
  let allowed := map norm (default [] (restricted ≫= (λ r, r !! eventType))) in
  if negb (length allowed =? 0)%nat
  then restricted_update eventType updater allowed
  else free_update updater.

Definition missing_targets (specs : list FlowSpec) : list string :=
  flat_map (λ s,
    flat_map (λ t,
      if declared specs t then []
      else [ "'" +:+ name s +:+ "' -> '" +:+ t +:+ "'" ]) (to s)) specs.

Definition createFlowMachineWithData (inputSpecs : list FlowSpec)
    (initialContext : D) (updates : option (gmap string Updater))
    (restricted : option (gmap string (list string))) (id : string)
    : Result (MachineConfig DataContext V) :=
  let specs := normalizeSpecs inputSpecs in
  match specs with
  | [] => Throw "specs cannot be empty"
  | first :: _ =>
      let names := map name specs in
      let dup := find_dup names in
      if truthy dup
      then Throw ("[FlowRunnerWithData] Duplicate state name: '" +:+ default "" dup +:+ "'.")
      else
        let missing := missing_targets specs in
        if negb (length missing =? 0)%nat
        then Throw ("[FlowRunnerWithData] Undefined targets: " +:+ join ", " missing)
        else
          let states :=
            fromEntries
              (map (λ s, (name s, if is_terminal s then final else node (edges s))) specs) in
          let on := map_imap (λ eventType updater,
                                Some (update_handler restricted eventType updater))
                             (default ∅ updates) in
          createMachine {| id := id; context := {| data := initialContext |};
                           initial := name first; states := states; on := on |}
  end.

End Builder.
Arguments DataContext : clear implicits.
End WithData.
Import WithData.

(** ** [createFlowMachine]: the builder of the plain runner *)

Module Plain.

Definition unknown_targets (specs : list FlowSpec) (s : FlowSpec) : Console :=
  flat_map (λ t,
    if declared specs t then []
    else [ (ConsoleError,
            "[FlowRunner] Unknown target '" +:+ t +:+ "' from '" +:+ name s +:+ "'.") ])
    (to s).

Definition createFlowMachine (specs : list FlowSpec) (id : string)
    : Console * Result (MachineConfig unit unit) :=
  match specs with
  | [] => ([], Throw "specs cannot be empty")
  | first :: _ =>
      let names := map name specs in
      let dup := find_dup names in
      let dup_error : Console :=
        if truthy dup
        then [ (ConsoleError,
                "[FlowRunner] Duplicate state name: '" +:+ default "" dup +:+ "'.") ]
        else [] in
      let states :=
        fromEntries
          (map (λ s, (name s, if is_terminal s then final else node (edges s))) specs) in
      ((dup_error ++ flat_map (unknown_targets specs) specs)%list,
       createMachine {| id := id; context := tt; initial := name first;
                        states := states; on := ∅ |})
  end.

End Plain.
Import Plain.

(** ** [makeFlowMachine]: the builder of the console-only runner *)

Module Basic.

Definition unknown_targets (specs : list FlowSpec) (s : FlowSpec) : Console :=
  flat_map (λ t,
    if declared specs t then []
    else [ (ConsoleError,
            "[FlowMachine] Unknown target '" +:+ t +:+ "' from state '" +:+ name s +:+ "'.") ])
    (to s).

Definition makeFlowMachine (specs : list FlowSpec) (id : string)
    : Console * Result (MachineConfig unit unit) :=
  match specs with
  | [] => ([], Throw "specs cannot be empty")
  | first :: _ =>
      let states :=
        fromEntries
          (map (λ s, (name s, if is_terminal s then final else node (edges s))) specs) in
      (flat_map (unknown_targets specs) specs,
       createMachine {| id := id; context := tt; initial := name first;
                        states := states; on := ∅ |})
  end.

End Basic.
Import Basic.

(** ** The vocabulary of the properties *)

(** The node a builder writes for one spec, and the [states] object. *)
Definition state_node {C V} (s : FlowSpec) : StateNodeConfig C V :=
  if is_terminal s then final else node (edges s).

Definition flow_states {C V} (specs : list FlowSpec) : gmap string (StateNodeConfig C V) :=
  fromEntries (map (λ s, (name s, state_node s)) specs).

(** The spec set is well formed: not empty, names pairwise distinct,
    every target declared. *)
Definition valid (specs : list FlowSpec) : Prop :=
  specs ≠ [] ∧ NoDup (map name specs) ∧
  ∀ s t, s ∈ specs → t ∈ to s → t ∈ map name specs.

(** The edges [(s.name, t)] whose target no spec declares, in the order
    the builders visit them. *)
Definition dangling (specs : list FlowSpec) : list (string * string) :=
  flat_map (λ s, map (λ t, (name s, t))
                     (List.filter (λ t, negb (declared specs t)) (to s))) specs.

(** The event [e] is not an edge event of the state named [cur]. *)
Definition no_edge (specs : list FlowSpec) (cur e : string) : Prop :=
  ∀ s, s ∈ specs → name s = cur →
    is_terminal s = true ∨ ∀ t, t ∈ to s → e ≠ "TO_" +:+ t.

(** The table the current state contributes to event selection. *)
Definition own_table {C V} (m : MachineConfig C V) (cur : string)
    : gmap string (list (TransitionConfig C V)) :=
  match states m !! cur with
  | Some (node table) => table
  | _ => ∅
  end.


(** The entries of the [missing] array, one per dangling edge. *)
Definition missing_entry (e : string * string) : string :=
  "'" +:+ e.1 +:+ "' -> '" +:+ e.2 +:+ "'".

(** The root table the data-carrying builder installs. *)
Definition update_table {D V} (u : option (gmap string (@Updater D V)))
    (r : option (gmap string (list string)))
    : gmap string (list (TransitionConfig (DataContext D) V)) :=
  map_imap (λ k f, Some (update_handler r k f)) (default ∅ u).

(** What the runtime asks of the names in a spec set: the first name,
    which becomes [initial], is not empty, and no name has path or id
    syntax in it. *)
Definition plain (specs : list FlowSpec) : Prop :=
  (∀ first, head specs = Some first → name first ≠ "") ∧
  ∀ s, s ∈ specs → path_free (name s) = true.

(** The keys of the table are event types, none of them a descriptor
    that matches other event types as well. *)
Definition exact_table {A} (table : gmap string A) : Prop :=
  ∀ k eventType, is_Some (table !! k) → matches_descriptor eventType k = true →
    k = eventType.

(** The machine of a spec set, as the runtime accepted it: the states are
    those of the specs, every target in them resolves, and the handlers of
    the root have no target. *)
Definition flow_machine {C V} (specs : list FlowSpec) (m : MachineConfig C V) : Prop :=
  states m = flow_states specs ∧
  (∀ n table k ts t, states m !! n = Some (node table) → table !! k = Some ts → t ∈ ts →
     target_resolves m t = true) ∧
  (∀ k ts t, on m !! k = Some ts → t ∈ ts → target t = None).

(** Every edge of a non-terminal spec is an event of its state, a single
    transition without guard; fired on the running machine in that state,
    the event of an edge whose target is not the empty name moves the
    current state to the target and does nothing else. *)
Definition fires_edges {C V} (specs : list FlowSpec) (m : MachineConfig C V) : Prop :=
  ∀ sp t, sp ∈ specs → is_terminal sp = false → t ∈ to sp →
    (∃ table, states m !! name sp = Some (node table) ∧
              table !! ("TO_" +:+ t) = Some (edge t)) ∧
    (t ≠ "" →
     ∀ (a : Actor C) (v : V),
       snap_value (getSnapshot a) = name sp → status (getSnapshot a) = Active →
       let a' := send m a {| type := "TO_" +:+ t; value := v |} in
       snap_value (getSnapshot a') = t ∧
       snap_context (getSnapshot a') = snap_context (getSnapshot a) ∧
       console a' = console a).


(** The actor is in a declared state, and it runs exactly when that state
    is not final. *)
Definition in_step {C V} (specs : list FlowSpec) (m : MachineConfig C V) (a : Actor C)
    : Prop :=
  snap_value (getSnapshot a) ∈ map name specs ∧
  status (getSnapshot a) = status_of m (snap_value (getSnapshot a)).

(** The state [n] is final, so it has no event table of its own, and an
    actor that is in it stays in it whatever events are sent. *)
Definition absorbing {C V} (m : MachineConfig C V) (n : string) : Prop :=
  states m !! n = Some final ∧
  ∀ (a : Actor C) (es : list (Event V)),
    snap_value (getSnapshot a) = n → snap_value (getSnapshot (run m a es)) = n.

(** ** Inputs used in the examples

    The first is the scenario of the specification. *)

Definition flow3 : list FlowSpec :=
  [ {| name := "Init"; to := ["Edit"]; terminal := None |};
    {| name := "Edit"; to := ["Saved"]; terminal := None |};
    {| name := "Saved"; to := []; terminal := Some true |} ].

(** [{ SET_X: (d, v) => v }] on numbers. *)
Definition set_x : gmap string (@Updater nat nat) := {[ "SET_X" := λ _ v _, v ]}.

Definition fire (t : string) (v : nat) : Event nat := {| type := t; value := v |}.

(** A spec set whose terminal state still lists a target. *)
Definition flow_loop : list FlowSpec :=
  [ {| name := "Init"; to := ["Saved"]; terminal := None |};
    {| name := "Saved"; to := ["Init"]; terminal := Some true |} ].

(** Two states and one edge, with an update event named like the edge
    event. *)
Definition flow2 : list FlowSpec :=
  [ {| name := "Init"; to := ["Edit"]; terminal := None |};
    {| name := "Edit"; to := []; terminal := None |} ].

Definition to_edit : gmap string (@Updater nat nat) := {[ "TO_Edit" := λ _ v _, v ]}.



(** [{ SET_X: ["Edit"] }] *)
Definition set_x_in_edit : gmap string (list string) := {[ "SET_X" := ["Edit"] ]}.

(** After [Init], two specs whose names are both empty once trimmed. *)
Definition blank_twice : list FlowSpec :=
  [ {| name := "Init"; to := []; terminal := None |};
    {| name := ""; to := []; terminal := None |};
    {| name := " "; to := []; terminal := None |} ].

Definition empty_twice : list FlowSpec :=
  [ {| name := "Init"; to := []; terminal := None |};
    {| name := ""; to := []; terminal := None |};
    {| name := ""; to := []; terminal := None |} ].



Definition flow_empty_target : list FlowSpec :=
  [ {| name := "Init"; to := [""]; terminal := None |};
    {| name := ""; to := ["Init"]; terminal := None |} ].

(** A dangling target in a terminal spec. *)
Definition flow_dead_end : list FlowSpec :=
  [ {| name := "Init"; to := ["Saved"]; terminal := None |};
    {| name := "Saved"; to := ["Gone"]; terminal := Some true |} ].

(** [{ "*": (d, v) => v }]: an update event for every event type. *)
Definition set_any : gmap string (@Updater nat nat) := {[ "*" := λ _ v _, v ]}.

(** [Init] points at a state nobody declares. *)
Definition flow_dangling : list FlowSpec :=
  [ {| name := "Init"; to := ["Edit"; "Gone"]; terminal := None |};
    {| name := "Edit"; to := ["Lost"]; terminal := None |} ].

(** ** Vocabulary for the further properties *)

(** Every code unit of the string is white space. *)
Fixpoint blank (s : string) : bool :=
  match s with
  | EmptyString => true
  | String c s' => is_white_space c && blank s'
  end.

(** The string starts, respectively ends, with white space. *)
Definition starts_blank (s : string) : bool :=
  match s with
  | String c _ => is_white_space c
  | EmptyString => false
  end.

Fixpoint ends_blank (s : string) : bool :=
  match s with
  | EmptyString => false
  | String c EmptyString => is_white_space c
  | String _ s' => ends_blank s'
  end.

(** A state declared twice: first as terminal, then with an edge. *)
Definition flow_override : list FlowSpec :=
  [ {| name := "Init"; to := ["Done"]; terminal := None |};
    {| name := "Done"; to := []; terminal := Some true |};
    {| name := "Done"; to := ["Init"]; terminal := None |} ].

(** Where an edge leads from [cur]: to its target, or nowhere when the
    target is the empty name. *)
Definition follow (cur t : string) : string :=
  if String.eqb t "" then cur else t.

(** The walk on the declared graph: from the state [cur], the event [e]
    follows the edge to the target [t] of [cur] with [e = TO_t] when [cur]
    is declared, not terminal, and has such a target; otherwise the walk
    stays. *)
Definition graph_step (specs : list FlowSpec) (cur e : string) : string :=
  match List.find (λ s, String.eqb (name s) cur) specs with
  | Some sp =>
      if is_terminal sp then cur
      else match List.find (λ t, String.eqb ("TO_" +:+ t) e) (to sp) with
           | Some t => follow cur t
           | None => cur
           end
  | None => cur
  end.

Definition walk (specs : list FlowSpec) (from : string) (es : list string) : string :=
  foldl (graph_step specs) from es.

(** An event the current state does not handle changes neither the
    current state nor the status. *)
Definition quiet_root {C V} (m : MachineConfig C V) : Prop :=
  ∀ (s : Snapshot C) (e : Event V),
    own_table m (snap_value s) !! type e = None →
    snap_value (transition m s e).1 = snap_value s ∧
    status (transition m s e).1 = status s.

(** The side panel of the data-carrying runner:
    [String(snap?.value ?? specs[0]?.name ?? "")], then
    [specs.find((s) => s.name === current)?.to ?? []], and one button per
    entry that sends [TO_<entry>]. *)
Definition panel_current {C} (snap : option (Snapshot C)) (specs : list FlowSpec) : string :=
  match snap with
  | Some s => snap_value s
  | None => match specs with
            | s0 :: _ => name s0
            | [] => EmptyString
            end
  end.

Definition outgoing (specs : list FlowSpec) (current : string) : list string :=
  match List.find (λ s, String.eqb (name s) current) specs with
  | Some s => to s
  | None => []
  end.

Definition buttons (specs : list FlowSpec) (current : string) : list string :=
  map (λ t, "TO_" +:+ t) (outgoing specs current).

(** The first state is terminal and still lists a target. *)
Definition flow_done_first : list FlowSpec :=
  [ {| name := "Done"; to := ["Init"]; terminal := Some true |};
    {| name := "Init"; to := ["Done"]; terminal := None |} ].

(** The walk with data, for a machine without restrictions: in a state
    that is declared and not terminal, an edge event of the state follows
    the edge, any other event that is a key of the UpdateMap replaces
    the data by the updater's result (current-state argument: the empty
    string), and everything else changes nothing. *)
Definition data_step {D V} (specs : list FlowSpec) (updates : gmap string (@Updater D V))
    (st : string * D) (e : Event V) : string * D :=
  match List.find (λ s, String.eqb (name s) st.1) specs with
  | Some sp =>
      if is_terminal sp then st
      else match List.find (λ t, String.eqb ("TO_" +:+ t) (type e)) (to sp) with
           | Some t => (follow st.1 t, st.2)
           | None =>
               match updates !! type e with
               | Some f => (st.1, f st.2 (value e) EmptyString)
               | None => st
               end
           end
  | None => st
  end.

(** ** Facts about the JavaScript helpers *)

Section JsFacts.

Lemma append_cons (c : ascii) (l s : string) : String c l +:+ s = String c (l +:+ s).
Proof. reflexivity. Qed.

Lemma append_empty (s : string) : EmptyString +:+ s = s.
Proof. reflexivity. Qed.

Lemma includes_true (xs : list string) (x : string) :
  includes xs x = true ↔ x ∈ xs.
Proof.
  unfold includes. rewrite existsb_exists. split.
  - intros (y & Hy & Heq). apply String.eqb_eq in Heq. subst y.
    by apply list_elem_of_In.
  - intros Hx. exists x. split; [by apply list_elem_of_In | apply String.eqb_refl].
Qed.

Lemma includes_false (xs : list string) (x : string) :
  includes xs x = false ↔ x ∉ xs.
Proof.
  rewrite <- includes_true. destruct (includes xs x); split; congruence.
Qed.

Lemma fromEntries_snoc {A} (l : list (string * A)) (k : string) (v : A) :
  fromEntries (l ++ [(k, v)]) = <[k := v]> (fromEntries l).
Proof. unfold fromEntries. by rewrite foldl_app. Qed.

(** A key that no entry carries is absent from the object. *)
Lemma fromEntries_lookup_None {A} (l : list (string * A)) (k : string) :
  fromEntries l !! k = None ↔ k ∉ l.*1.
Proof.
  induction l as [|[k' v'] l IH] using rev_ind.
  - split; [intros _; apply not_elem_of_nil | done].
  - rewrite fromEntries_snoc, fmap_app, lookup_insert. simpl.
    rewrite not_elem_of_app. case_decide as Hk.
    + subst k'. split; [done | intros [_ Hn]; exfalso; apply Hn; left].
    + rewrite IH. split; [intros Hl; split; [done|] | by intros [Hl _]].
      intros Hin. apply list_elem_of_singleton in Hin. congruence.
Qed.

(** When equal keys carry equal values, the object holds exactly the
    entries of the list. *)
Lemma fromEntries_lookup_Some {A} (l : list (string * A)) (k : string) (v : A) :
  (∀ k0 v1 v2, (k0, v1) ∈ l → (k0, v2) ∈ l → v1 = v2) →
  fromEntries l !! k = Some v ↔ (k, v) ∈ l.
Proof.
  induction l as [|[k' v'] l IH] using rev_ind; intros Hfun.
  - split; [done | intros H; by apply elem_of_nil in H].
  - rewrite fromEntries_snoc, lookup_insert, elem_of_app.
    assert (Hfun' : ∀ k0 v1 v2, (k0, v1) ∈ l → (k0, v2) ∈ l → v1 = v2).
    { intros k0 v1 v2 H1 H2. apply (Hfun k0); apply elem_of_app; by left. }
    specialize (IH Hfun'). case_decide as Hk.
    + subst k'. split.
      * intros [= ->]. right. apply list_elem_of_singleton. done.
      * intros Hin. f_equal. apply (Hfun k).
        -- apply elem_of_app. right. by apply list_elem_of_singleton.
        -- apply elem_of_app. destruct Hin as [Hin|Hin]; [by left | by right].
    + rewrite IH. split; [by left |]. intros [Hin|Hin]; [done |].
      apply list_elem_of_singleton in Hin. congruence.
Qed.

Lemma indexOf_from_app (i : Z) (pre rest : list string) (x : string) :
  x ∉ pre → indexOf_from i (pre ++ x :: rest) x = (i + Z.of_nat (length pre))%Z.
Proof.
  revert i. induction pre as [|y pre IH]; intros i Hx; simpl.
  - rewrite String.eqb_refl. lia.
  - apply not_elem_of_cons in Hx as [Hne Hx].
    destruct (String.eqb_spec y x) as [->|_]; [done |].
    rewrite IH by done. lia.
Qed.

Lemma indexOf_from_lt (i : Z) (pre rest : list string) (x : string) :
  x ∈ pre → (indexOf_from i (pre ++ rest) x < i + Z.of_nat (length pre))%Z.
Proof.
  revert i. induction pre as [|y pre IH]; intros i Hx; simpl.
  - by apply elem_of_nil in Hx.
  - destruct (String.eqb_spec y x) as [->|Hne]; [lia |].
    apply elem_of_cons in Hx as [->|Hx]; [done |].
    specialize (IH (i + 1)%Z Hx). lia.
Qed.

Lemma find_from_elem {A} (p : A → Z → bool) (i : Z) (xs : list A) (x : A) :
  find_from p i xs = Some x → x ∈ xs.
Proof.
  revert i. induction xs as [|y xs IH]; intros i; simpl; [done |].
  destruct (p y i).
  - intros [= ->]. left.
  - intros H. right. eauto.
Qed.

Lemma find_dup_from_NoDup (names pre xs : list string) :
  names = pre ++ xs → NoDup names →
  find_from (λ n i, negb (indexOf names n =? i)%Z) (Z.of_nat (length pre)) xs = None.
Proof.
  revert pre. induction xs as [|x xs IH]; intros pre -> Hnd; simpl; [done |].
  assert (Hx : x ∉ pre).
  { apply NoDup_app in Hnd as (_ & Hdisj & _). intros Hin.
    apply (Hdisj x Hin). left. }
  unfold indexOf at 1. rewrite indexOf_from_app by done.
  rewrite Z.add_0_l, Z.eqb_refl. simpl.
  replace (Z.of_nat (length pre) + 1)%Z with (Z.of_nat (length (pre ++ [x])))
    by (rewrite length_app; simpl; lia).
  apply IH; [by rewrite <- app_assoc | done].
Qed.

Lemma find_dup_from_None (names pre xs : list string) :
  names = pre ++ xs → NoDup pre →
  find_from (λ n i, negb (indexOf names n =? i)%Z) (Z.of_nat (length pre)) xs = None →
  NoDup names.
Proof.
  revert pre. induction xs as [|x xs IH]; intros pre -> Hnd; simpl.
  - intros _. by rewrite app_nil_r.
  - destruct (negb _) eqn:Hp; [done |]. intros Hrest.
    apply negb_false_iff, Z.eqb_eq in Hp.
    assert (Hx : x ∉ pre).
    { intros Hin. pose proof (indexOf_from_lt 0 pre (x :: xs) x Hin) as Hlt.
      unfold indexOf in Hp. lia. }
    apply (IH (pre ++ [x])).
    + by rewrite <- app_assoc.
    + apply NoDup_app. split_and!; [done | | apply NoDup_singleton].
      intros y Hy Hy'. apply list_elem_of_singleton in Hy'. by subst y.
    + rewrite length_app. simpl.
      by replace (Z.of_nat (length pre + 1)) with (Z.of_nat (length pre) + 1)%Z by lia.
Qed.

(** [find_dup] finds nothing exactly when the names are pairwise distinct. *)
Lemma find_dup_None (names : list string) :
  find_dup names = None ↔ NoDup names.
Proof.
  split.
  - intros H. apply (find_dup_from_None names [] names); [done | constructor | done].
  - intros H. by apply (find_dup_from_NoDup names [] names).
Qed.

Lemma find_dup_elem (names : list string) (d : string) :
  find_dup names = Some d → d ∈ names.
Proof. apply find_from_elem. Qed.

End JsFacts.

(** ** Facts about the state table and the runtime *)

Section TableFacts.
Context {C V : Type}.
Implicit Types (m : MachineConfig C V) (s : Snapshot C) (e : Event V).

Lemma edge_event_inj (t1 t2 : string) : "TO_" +:+ t1 = "TO_" +:+ t2 → t1 = t2.
Proof. cbv [String.append]. by intros [= ->]. Qed.

Lemma edges_lookup (sp : FlowSpec) (t : string) :
  t ∈ to sp → edges (C:=C) (V:=V) sp !! ("TO_" +:+ t) = Some (edge t).
Proof.
  intros Ht. unfold edges. apply fromEntries_lookup_Some.
  - intros k v1 v2 H1 H2.
    apply list_elem_of_In, in_map_iff in H1 as (t1 & [= <- <-] & _).
    apply list_elem_of_In, in_map_iff in H2 as (t2 & [= Hk <-] & _).
    cbv [String.append] in Hk. by subst t2.
  - apply list_elem_of_In, in_map_iff. exists t. split; [done | by apply list_elem_of_In].
Qed.

Lemma edges_lookup_inv (sp : FlowSpec) (k : string) (ts : list (TransitionConfig C V)) :
  edges sp !! k = Some ts → ∃ t, t ∈ to sp ∧ k = "TO_" +:+ t ∧ ts = edge t.
Proof.
  intros Hk. destruct (decide (k ∈ (map (λ t, ("TO_" +:+ t, edge (C:=C) (V:=V) t)) (to sp)).*1))
    as [Hin|Hnin].
  - apply list_elem_of_fmap in Hin as ([k' v] & -> & Hin). simpl in *.
    pose proof Hin as Hin'.
    apply list_elem_of_In, in_map_iff in Hin as (t & [= <- <-] & Ht).
    exists t. apply list_elem_of_In in Ht. split_and!; [done | done |].
    rewrite edges_lookup in Hk by done. congruence.
  - apply fromEntries_lookup_None in Hnin. unfold edges in Hk. congruence.
Qed.

Lemma edges_lookup_None (sp : FlowSpec) (k : string) :
  (∀ t, t ∈ to sp → k ≠ "TO_" +:+ t) → edges (C:=C) (V:=V) sp !! k = None.
Proof.
  intros Hk. destruct (edges sp !! k) as [ts|] eqn:E; [|done].
  apply edges_lookup_inv in E as (t & Ht & -> & _). by destruct (Hk t Ht).
Qed.

Lemma name_inj (specs : list FlowSpec) (s1 s2 : FlowSpec) :
  NoDup (map name specs) → s1 ∈ specs → s2 ∈ specs → name s1 = name s2 → s1 = s2.
Proof.
  induction specs as [|s0 specs IH]; simpl; intros Hnd H1 H2 Heq.
  - by apply elem_of_nil in H1.
  - apply NoDup_cons in Hnd as [Hn0 Hnd].
    assert (Hin : ∀ x, x ∈ specs → name x ∈ map name specs).
    { intros x Hx. apply list_elem_of_In, in_map, list_elem_of_In, Hx. }
    apply elem_of_cons in H1 as [->|H1]; apply elem_of_cons in H2 as [->|H2].
    + done.
    + destruct Hn0. rewrite Heq. by apply Hin.
    + destruct Hn0. rewrite <- Heq. by apply Hin.
    + by apply IH.
Qed.

(** With distinct names every spec owns the node stored under its name. *)
Lemma flow_states_lookup (specs : list FlowSpec) (sp : FlowSpec) :
  NoDup (map name specs) → sp ∈ specs →
  flow_states (C:=C) (V:=V) specs !! name sp = Some (state_node sp).
Proof.
  intros Hnd Hsp. unfold flow_states. apply fromEntries_lookup_Some.
  - intros k v1 v2 H1 H2.
    apply list_elem_of_In, in_map_iff in H1 as (s1 & [= <- <-] & Hs1).
    apply list_elem_of_In, in_map_iff in H2 as (s2 & [= Hk <-] & Hs2).
    apply list_elem_of_In in Hs1, Hs2.
    by rewrite (name_inj specs s2 s1 Hnd Hs2 Hs1 Hk).
  - apply list_elem_of_In, in_map_iff. exists sp. split; [done | by apply list_elem_of_In].
Qed.

(** In general the node stored under a name is that of some spec with
    the name. *)
Lemma flow_states_lookup_inv (specs : list FlowSpec) (n : string)
    (nd : StateNodeConfig C V) :
  flow_states specs !! n = Some nd → ∃ sp, sp ∈ specs ∧ name sp = n ∧ nd = state_node sp.
Proof.
  unfold flow_states. induction specs as [|s0 specs IH] using rev_ind; [done |].
  rewrite map_app. simpl. rewrite fromEntries_snoc, lookup_insert. case_decide as Hn.
  - intros [= <-]. exists s0. split_and!; [| done | done].
    apply elem_of_app. right. left.
  - intros H. apply IH in H as (sp & Hsp & Hname & ->).
    exists sp. split_and!; [| done | done]. apply elem_of_app. by left.
Qed.

Lemma own_table_no_edge (specs : list FlowSpec) m (cur k : string) :
  states m = flow_states specs → no_edge specs cur k → own_table m cur !! k = None.
Proof.
  intros Hst Hno. unfold own_table. rewrite Hst.
  destruct (flow_states specs !! cur) as [nd|] eqn:E; [|done].
  apply flow_states_lookup_inv in E as (sp & Hsp & Hname & ->).
  unfold state_node. destruct (Hno sp Hsp Hname) as [->|Hk]; [done |].
  destruct (is_terminal sp); [done |]. by apply edges_lookup_None.
Qed.

(** *** Event descriptors *)

Lemma has_char_append (c : ascii) (a b : string) :
  has_char c (a +:+ b) = has_char c a || has_char c b.
Proof.
  induction a as [|c' a IH]; [done |].
  rewrite append_cons. simpl. by rewrite IH, orb_assoc.
Qed.

Lemma ends_with_dot_star_no_dot (k : string) :
  has_char "." k = false → ends_with_dot_star k = false.
Proof.
  induction k as [|c k IH]; simpl; [done |].
  intros H. apply orb_false_iff in H as [Hc Hk]. rewrite Hc. simpl. by apply IH.
Qed.

Lemma path_free_no_dot (t : string) : path_free t = true → has_char "." t = false.
Proof.
  unfold path_free. intros H. apply andb_true_iff in H as [H _].
  apply andb_true_iff in H as [H _]. by apply negb_true_iff in H.
Qed.

(** The event of an edge whose target has no path syntax is no descriptor
    of other events. *)
Lemma edge_event_exact (t eventType : string) :
  path_free t = true → matches_descriptor eventType ("TO_" +:+ t) = true →
  "TO_" +:+ t = eventType.
Proof.
  intros Hp. unfold matches_descriptor.
  rewrite (ends_with_dot_star_no_dot ("TO_" +:+ t)).
  - change (String.eqb ("TO_" +:+ t) "*") with false.
    rewrite !orb_false_r. apply String.eqb_eq.
  - rewrite has_char_append. simpl. by apply path_free_no_dot.
Qed.

Lemma matches_descriptor_refl (eventType : string) :
  matches_descriptor eventType eventType = true.
Proof. unfold matches_descriptor. by rewrite String.eqb_refl. Qed.

Lemma elem_of_insert_longest {A} (x y : string * A) (l : list (string * A)) :
  y ∈ insert_longest x l ↔ y = x ∨ y ∈ l.
Proof.
  induction l as [|z l IH]; simpl.
  - rewrite list_elem_of_singleton. split; [by left | intros [H|H]; [done |]].
    by apply elem_of_nil in H.
  - destruct (_ <=? _)%nat; [by rewrite elem_of_cons |].
    rewrite !elem_of_cons, IH. tauto.
Qed.

Lemma elem_of_longest_first {A} (y : string * A) (l : list (string * A)) :
  y ∈ longest_first l ↔ y ∈ l.
Proof.
  induction l as [|x l IH]; simpl; [done |].
  by rewrite elem_of_insert_longest, elem_of_cons, IH.
Qed.

Lemma candidates_exact (table : gmap string (list (TransitionConfig C V)))
    (eventType : string) ts :
  table !! eventType = Some ts → candidates table eventType = ts.
Proof. unfold candidates. by intros ->. Qed.

(** Every candidate comes from an entry whose key matches the event. *)
Lemma candidates_elem (table : gmap string (list (TransitionConfig C V)))
    (eventType : string) (t : TransitionConfig C V) :
  t ∈ candidates table eventType →
  ∃ k ts, table !! k = Some ts ∧ t ∈ ts ∧ matches_descriptor eventType k = true.
Proof.
  unfold candidates. destruct (table !! eventType) as [ts|] eqn:E.
  - intros Ht. exists eventType, ts. split_and!; [done | done |].
    apply matches_descriptor_refl.
  - intros Ht. apply list_elem_of_In, in_flat_map in Ht as ([k ts] & Hin & Ht).
    apply list_elem_of_In, elem_of_longest_first, list_elem_of_In, filter_In in Hin
      as [Hin Hm].
    apply list_elem_of_In, elem_of_map_to_list in Hin.
    exists k, ts. split_and!; [done | by apply list_elem_of_In | done].
Qed.

Lemma candidates_unmatched (table : gmap string (list (TransitionConfig C V)))
    (eventType : string) :
  (∀ k, is_Some (table !! k) → matches_descriptor eventType k = false) →
  candidates table eventType = [].
Proof.
  intros Hno. destruct (candidates table eventType) as [|t l] eqn:E; [done |].
  assert (Hin : t ∈ candidates table eventType) by (rewrite E; left).
  apply candidates_elem in Hin as (k & ts & Hk & _ & Hm).
  rewrite Hno in Hm; [done | by eexists].
Qed.

Lemma candidates_none (table : gmap string (list (TransitionConfig C V)))
    (eventType : string) :
  exact_table table → table !! eventType = None → candidates table eventType = [].
Proof.
  intros Hex Hnone. apply candidates_unmatched. intros k Hk.
  destruct (matches_descriptor eventType k) eqn:Hm; [| done].
  rewrite (Hex k eventType Hk Hm) in Hk. rewrite Hnone in Hk. by destruct Hk.
Qed.

Lemma exact_table_empty {A} : exact_table (∅ : gmap string A).
Proof. intros k ev [x Hx]. by rewrite lookup_empty in Hx. Qed.

Lemma first_enabled_elem (args : GuardArgs C V) ts (t : TransitionConfig C V) :
  first_enabled args ts = Ok (Some t) → t ∈ ts.
Proof.
  induction ts as [|t' ts IH]; simpl; [done |].
  destruct (guard t') as [g|].
  - destruct (g args) as [[|]|]; [| | done].
    + intros [= ->]. left.
    + intros H. right. by apply IH.
  - intros [= ->]. left.
Qed.

Lemma next_edge (table : gmap string (list (TransitionConfig C V)))
    (args : GuardArgs C V) (t : string) :
  table !! type (guard_event args) = Some (edge t) →
  next table args = Ok (Some {| guard := None; target := Some t; actions := [] |}).
Proof. intros H. unfold next. by rewrite (candidates_exact _ _ _ H). Qed.

Lemma next_none (table : gmap string (list (TransitionConfig C V)))
    (args : GuardArgs C V) :
  exact_table table → table !! type (guard_event args) = None →
  next table args = Ok None.
Proof. intros Hex Hnone. unfold next. by rewrite candidates_none. Qed.

Lemma next_elem (table : gmap string (list (TransitionConfig C V)))
    (args : GuardArgs C V) (t : TransitionConfig C V) :
  next table args = Ok (Some t) →
  ∃ k ts, table !! k = Some ts ∧ t ∈ ts ∧
          matches_descriptor (type (guard_event args)) k = true.
Proof. intros H. by apply first_enabled_elem, candidates_elem in H. Qed.

(** *** Selection and transition *)

(** The state's own table first, then the root's. *)
Lemma select_own m s e :
  select m s e =
    let args := {| guard_context := snap_context s; guard_event := e;
                   guard_self := None |} in
    match next (own_table m (snap_value s)) args with
    | Ok None => next (on m) args
    | selected => selected
    end.
Proof.
  unfold select, own_table. cbv zeta.
  destruct (states m !! snap_value s) as [[|table]|].
  - by rewrite (next_none ∅) by (apply exact_table_empty || apply lookup_empty).
  - by destruct (next table _) as [[t|]|].
  - by rewrite (next_none ∅) by (apply exact_table_empty || apply lookup_empty).
Qed.

Lemma select_root m s e :
  exact_table (own_table m (snap_value s)) →
  own_table m (snap_value s) !! type e = None →
  select m s e =
    next (on m) {| guard_context := snap_context s; guard_event := e;
                   guard_self := None |}.
Proof. intros Hex Hown. rewrite select_own. cbv zeta. by rewrite next_none. Qed.

(** The tables of the states hold edge events only, and none of them is
    a descriptor of other events. *)
Lemma own_table_exact (specs : list FlowSpec) m (cur : string) :
  flow_machine specs m → exact_table (own_table m cur).
Proof.
  intros (Hst & Hres & _) k ev [ts Hk] Hm. unfold own_table in Hk.
  destruct (states m !! cur) as [[|table]|] eqn:E;
    [by rewrite lookup_empty in Hk | | by rewrite lookup_empty in Hk].
  pose proof E as E'. rewrite Hst in E'.
  apply flow_states_lookup_inv in E' as (sp & Hsp & Hname & Hnd).
  unfold state_node in Hnd. destruct (is_terminal sp); [done |]. injection Hnd as ->.
  pose proof Hk as Hk'. apply edges_lookup_inv in Hk' as (t & Ht & -> & ->).
  apply edge_event_exact; [| done].
  assert (Hr : target_resolves m {| guard := None; target := Some t; actions := [] |} = true).
  { apply (Hres cur (edges sp) ("TO_" +:+ t) (edge t)); [done | done | left]. }
  unfold target_resolves in Hr. simpl in Hr.
  destruct (String.eqb_spec t "") as [->|_]; [done |].
  simpl in Hr. by apply andb_true_iff in Hr as [? _].
Qed.

(** Firing an edge event of the current state, when the target is not
    the empty name. *)
Lemma transition_edge m s e (table : gmap string (list (TransitionConfig C V)))
    (t : string) :
  states m !! snap_value s = Some (node table) →
  table !! type e = Some (edge t) →
  t ≠ "" → is_Some (states m !! t) →
  transition m s e =
    ({| snap_value := t; snap_context := snap_context s; status := status_of m t |}, []).
Proof.
  intros Hs Ht Hne [nd Hnd]. unfold transition, select. rewrite Hs.
  rewrite (next_edge table _ t) by done. simpl.
  unfold destination. simpl. apply String.eqb_neq in Hne. rewrite Hne.
  unfold status_of. rewrite Hnd. by destruct nd.
Qed.

(** An edge to the empty name is a transition without target. *)
Lemma transition_edge_empty m s e (table : gmap string (list (TransitionConfig C V))) :
  states m !! snap_value s = Some (node table) →
  table !! type e = Some (edge "") →
  transition m s e =
    ({| snap_value := snap_value s; snap_context := snap_context s;
        status := status s |}, []).
Proof.
  intros Hs Ht. unfold transition, select. rewrite Hs.
  by rewrite (next_edge table _ "") by done.
Qed.

Lemma flow_states_declared (specs : list FlowSpec) (n : string) :
  n ∈ map name specs → is_Some (flow_states (C:=C) (V:=V) specs !! n).
Proof.
  intros Hn. destruct (flow_states specs !! n) eqn:E; [by eexists |].
  apply fromEntries_lookup_None in E. destruct E.
  apply list_elem_of_In, in_map_iff in Hn as (sp & <- & Hsp).
  apply list_elem_of_fmap. exists (name sp, state_node sp). split; [done |].
  apply list_elem_of_In, in_map_iff. by exists sp.
Qed.

(** An event that neither the current state nor the root handles. *)
Lemma transition_ignored m s e :
  exact_table (own_table m (snap_value s)) →
  own_table m (snap_value s) !! type e = None →
  candidates (on m) (type e) = [] →
  transition m s e = (s, []).
Proof.
  intros Hex Hown Hroot. unfold transition. rewrite select_root by done.
  unfold next. simpl. by rewrite Hroot.
Qed.

(** An event the current state does not handle, when no root handler
    has a target, leaves the current state where it is. *)
Lemma transition_stays m s e :
  exact_table (own_table m (snap_value s)) →
  own_table m (snap_value s) !! type e = None →
  (∀ k ts t, on m !! k = Some ts → t ∈ ts → target t = None) →
  snap_value (transition m s e).1 = snap_value s.
Proof.
  intros Hex Hown Hroot. unfold transition. rewrite select_root by done.
  destruct (next (on m) _) as [[t|]|err] eqn:N; [| done | done].
  apply next_elem in N as (k & ts & Hk & Hin & _).
  unfold destination. rewrite (Hroot k ts t Hk Hin).
  by destruct (run_actions _ _ _) as [[c out]|].
Qed.

Lemma send_stopped m (a : Actor C) e :
  status (getSnapshot a) ≠ Active → send m a e = a.
Proof. unfold send. by destruct (status (getSnapshot a)). Qed.

Lemma send_active m (a : Actor C) e :
  status (getSnapshot a) = Active →
  getSnapshot (send m a e) = (transition m (getSnapshot a) e).1 ∧
  console (send m a e) = console a ++ (transition m (getSnapshot a) e).2.
Proof. unfold send. by intros ->. Qed.

(** Whatever the status of the actor, [send] keeps the current state
    under the conditions of [transition_stays]. *)
Lemma send_stays m (a : Actor C) e :
  exact_table (own_table m (snap_value (getSnapshot a))) →
  own_table m (snap_value (getSnapshot a)) !! type e = None →
  (∀ k ts t, on m !! k = Some ts → t ∈ ts → target t = None) →
  snap_value (getSnapshot (send m a e)) = snap_value (getSnapshot a).
Proof.
  intros Hex Hown Hroot. unfold send.
  destruct (status (getSnapshot a)); [| done | done].
  simpl. by apply transition_stays.
Qed.

(** What [createMachine] has checked when it returns. *)
Lemma createMachine_Ok (config m : MachineConfig C V) :
  createMachine config = Ok m →
  m = config ∧ initial config ≠ "" ∧
  (∀ n table k ts t, states config !! n = Some (node table) → table !! k = Some ts →
     t ∈ ts → target_resolves config t = true) ∧
  (∀ k, is_Some (on config !! k) → k ≠ "").
Proof.
  unfold createMachine. destruct (String.eqb_spec (initial config) "") as [|Hinit]; [done |].
  destruct (bool_decide _) eqn:Hst; simpl; [| done].
  destruct (table_accepted config (on config)) eqn:Hon; [| done].
  intros [= <-]. apply bool_decide_eq_true in Hst.
  unfold table_accepted in Hon. apply bool_decide_eq_true in Hon.
  split_and!; [done | done | |].
  - intros n table k ts t Hn Hk Ht. specialize (Hst n _ Hn). simpl in Hst.
    unfold table_accepted in Hst. apply bool_decide_eq_true in Hst.
    destruct (Hst k ts Hk) as [_ Hall]. rewrite forallb_forall in Hall.
    apply Hall. by apply list_elem_of_In.
  - intros k [ts Hk]. by destruct (Hon k ts Hk).
Qed.

Lemma createMachine_accepts (config : MachineConfig C V) :
  initial config ≠ "" →
  (∀ n table k ts, states config !! n = Some (node table) → table !! k = Some ts →
     k ≠ "" ∧ ∀ t, t ∈ ts → target_resolves config t = true) →
  (∀ k ts, on config !! k = Some ts → k ≠ "" ∧ ∀ t, t ∈ ts → target t = None) →
  createMachine config = Ok config.
Proof.
  intros Hinit Hst Hon. unfold createMachine.
  apply String.eqb_neq in Hinit. rewrite Hinit.
  rewrite bool_decide_eq_true_2.
  - unfold table_accepted. rewrite bool_decide_eq_true_2; [done |].
    intros k ts Hk. destruct (Hon k ts Hk) as [Hne Hnone]. split; [done |].
    apply forallb_forall. intros t Ht. apply list_elem_of_In in Ht.
    unfold target_resolves. by rewrite (Hnone t Ht).
  - intros n [|table] Hn; [done |]. simpl. unfold table_accepted.
    apply bool_decide_eq_true. intros k ts Hk.
    destruct (Hst n table k ts Hn Hk) as [Hne Hres]. split; [done |].
    apply forallb_forall. intros t Ht. apply list_elem_of_In in Ht. by apply Hres.
Qed.

Lemma declared_path_free (specs : list FlowSpec) :
  (∀ sp t, sp ∈ specs → t ∈ to sp → t ∈ map name specs) →
  (∀ sp, sp ∈ specs → path_free (name sp) = true) →
  ∀ sp t, sp ∈ specs → t ∈ to sp → path_free t = true.
Proof.
  intros Hdecl Hfree sp t Hsp Ht.
  specialize (Hdecl sp t Hsp Ht).
  apply list_elem_of_In, in_map_iff in Hdecl as (sp' & <- & Hsp').
  by apply Hfree, list_elem_of_In.
Qed.

(** The targets written for a spec set resolve when they are declared
    and have no path syntax in them. *)
Lemma flow_states_resolve (specs : list FlowSpec) (config : MachineConfig C V) :
  states config = flow_states specs →
  (∀ sp t, sp ∈ specs → t ∈ to sp → t ∈ map name specs) →
  (∀ sp t, sp ∈ specs → t ∈ to sp → path_free t = true) →
  ∀ n table k ts, states config !! n = Some (node table) → table !! k = Some ts →
    k ≠ "" ∧ ∀ t, t ∈ ts → target_resolves config t = true.
Proof.
  intros Hst Hdecl Hfree n table k ts Hn Hk. rewrite Hst in Hn.
  apply flow_states_lookup_inv in Hn as (sp & Hsp & _ & Hnd). unfold state_node in Hnd.
  destruct (is_terminal sp); [done |]. injection Hnd as ->.
  apply edges_lookup_inv in Hk as (t0 & Ht0 & -> & ->).
  split; [done |]. intros t Ht. apply list_elem_of_singleton in Ht. subst t.
  unfold target_resolves. simpl. rewrite (Hfree sp t0 Hsp Ht0), Hst.
  rewrite bool_decide_eq_true_2; [by rewrite orb_true_r |].
  apply flow_states_declared. by apply (Hdecl sp).
Qed.

End TableFacts.

(** ** Facts about the builders *)

Section BuilderFacts.
Context {D V : Type}.
Implicit Types (specs : list FlowSpec) (d : D)
  (u : option (gmap string (@Updater D V)))
  (r : option (gmap string (list string))).

Lemma skip_declared {A} (p : string → bool) (h : string → A) (l : list string) :
  flat_map (λ t, if p t then [] else [h t]) l =
  map h (List.filter (λ t, negb (p t)) l).
Proof.
  induction l as [|t l IH]; simpl; [done |].
  destruct (p t); simpl; by rewrite IH.
Qed.

Lemma per_dangling_edge {A} (h : string * string → A) specs :
  flat_map (λ s, flat_map (λ t, if declared specs t then [] else [h (name s, t)]) (to s))
           specs =
  map h (dangling specs).
Proof.
  unfold dangling. generalize (declared specs). intros p.
  induction specs as [|s specs IH]; simpl; [done |].
  rewrite map_app, IH, (skip_declared p (λ t, h (name s, t))), map_map. done.
Qed.

Lemma dangling_elem specs (n t : string) :
  (n, t) ∈ dangling specs ↔
  ∃ s, s ∈ specs ∧ name s = n ∧ t ∈ to s ∧ t ∉ map name specs.
Proof.
  unfold dangling. rewrite list_elem_of_In, in_flat_map. split.
  - intros (s & Hs & Hin). apply in_map_iff in Hin as (t' & [= <- <-] & Ht).
    apply filter_In in Ht as [Ht Hp]. apply negb_true_iff, includes_false in Hp.
    apply list_elem_of_In in Hs, Ht. by exists s.
  - intros (s & Hs & <- & Ht & Hn). exists s. rewrite <- list_elem_of_In.
    split; [done |]. apply in_map_iff. exists t. split; [done |].
    apply filter_In. rewrite <- list_elem_of_In. split; [done |].
    by apply negb_true_iff, includes_false.
Qed.

Lemma dangling_nil specs :
  (∀ s t, s ∈ specs → t ∈ to s → t ∈ map name specs) → dangling specs = [].
Proof.
  intros Hall. destruct (dangling specs) as [|[n t] l] eqn:E; [done |].
  assert (Hin : (n, t) ∈ dangling specs) by (rewrite E; left).
  apply dangling_elem in Hin as (s & Hs & _ & Ht & Hn). destruct Hn. eauto.
Qed.

Lemma missing_targets_dangling specs :
  missing_targets specs = map missing_entry (dangling specs).
Proof. unfold missing_targets. by rewrite <- (per_dangling_edge missing_entry). Qed.

Lemma update_table_lookup u r (k : string) :
  update_table u r !! k = update_handler r k <$> (default ∅ u !! k).
Proof.
  unfold update_table. rewrite map_lookup_imap. by destruct (default ∅ u !! k).
Qed.

Lemma update_table_no_target u r (k : string) ts t :
  update_table u r !! k = Some ts → t ∈ ts → target t = None.
Proof.
  rewrite update_table_lookup. destruct (default ∅ u !! k) as [f|]; [|done].
  intros [= <-]. unfold update_handler, restricted_update, free_update.
  destruct (negb _); intros Hin; repeat (apply elem_of_cons in Hin as [->|Hin]; [done |]);
    by apply elem_of_nil in Hin.
Qed.

(** What a successful call of the data-carrying builder returns. *)
Lemma createFlowMachineWithData_Ok specs d u r (i : string) m :
  createFlowMachineWithData specs d u r i = Ok m →
  ∃ first rest,
    normalizeSpecs specs = first :: rest ∧
    truthy (find_dup (map name (normalizeSpecs specs))) = false ∧
    dangling (normalizeSpecs specs) = [] ∧
    m = {| id := i; context := {| data := d |}; initial := name first;
           states := flow_states (normalizeSpecs specs);
           on := update_table u r |}.
Proof.
  unfold createFlowMachineWithData.
  destruct (normalizeSpecs specs) as [|first rest] eqn:E; [done |].
  destruct (truthy _) eqn:Hdup; [done |].
  destruct (negb _) eqn:Hmiss; [done |].
  intros Hm. apply createMachine_Ok in Hm as (-> & _).
  exists first, rest. split_and!; try done.
  apply negb_false_iff, Nat.eqb_eq, length_zero_iff_nil in Hmiss.
  rewrite missing_targets_dangling in Hmiss. by apply map_eq_nil in Hmiss.
Qed.

Lemma createFlowMachineWithData_machine specs d u r (i : string) m :
  createFlowMachineWithData specs d u r i = Ok m →
  flow_machine (normalizeSpecs specs) m ∧ initial m ≠ "" ∧
  ∀ k, is_Some (default ∅ u !! k) → k ≠ "".
Proof.
  intros Hm. pose proof Hm as Hm'.
  apply createFlowMachineWithData_Ok in Hm' as (first & rest & Hs & _ & _ & Heq).
  unfold createFlowMachineWithData in Hm. rewrite Hs in Hm.
  destruct (truthy _); [done |]. destruct (negb _); [done |].
  apply createMachine_Ok in Hm as (Hc & Hinit & Hres & Hkeys).
  rewrite <- Hc in Hinit, Hres, Hkeys. split_and!; [| done |].
  - split_and!; [by rewrite Heq | done |].
    rewrite Heq. intros k ts t. apply update_table_no_target.
  - intros k [f Hk]. apply Hkeys. rewrite Heq. simpl.
    rewrite update_table_lookup, Hk. by eexists.
Qed.


End BuilderFacts.

Lemma plain_machine_accepted (specs : list FlowSpec) (i : string) (first : FlowSpec) :
  (∀ s t, s ∈ specs → t ∈ to s → t ∈ map name specs) → plain specs →
  head specs = Some first →
  createMachine (C:=unit) (V:=unit)
    {| id := i; context := tt; initial := name first;
       states := flow_states specs; on := ∅ |} =
  Ok {| id := i; context := tt; initial := name first;
        states := flow_states specs; on := ∅ |}.
Proof.
  intros Htgt [Hfirst Hfree] Hhd. apply createMachine_accepts.
  - by apply Hfirst.
  - apply (flow_states_resolve specs); [done | done |].
    by apply declared_path_free.
  - intros k ts Hk. simpl in Hk. by rewrite lookup_empty in Hk.
Qed.

Lemma createFlowMachine_valid (specs : list FlowSpec) (i : string) (first : FlowSpec) :
  valid specs → plain specs → head specs = Some first →
  createFlowMachine specs i =
    ([], Ok {| id := i; context := tt; initial := name first;
               states := flow_states specs; on := ∅ |}).
Proof.
  intros (_ & Hnd & Htgt) Hplain Hhd.
  pose proof (plain_machine_accepted specs i first Htgt Hplain Hhd) as Hm.
  unfold createFlowMachine.
  destruct specs as [|first' rest]; [done |]. injection Hhd as ->.
  apply find_dup_None in Hnd. rewrite Hnd. simpl truthy. cbv iota.
  unfold Plain.unknown_targets.
  rewrite (per_dangling_edge
             (λ e, (ConsoleError,
                    "[FlowRunner] Unknown target '" +:+ e.2 +:+ "' from '" +:+ e.1 +:+ "'."))).
  rewrite (dangling_nil _ Htgt). simpl. f_equal. exact Hm.
Qed.

Lemma makeFlowMachine_valid (specs : list FlowSpec) (i : string) (first : FlowSpec) :
  (∀ s t, s ∈ specs → t ∈ to s → t ∈ map name specs) → plain specs →
  head specs = Some first →
  makeFlowMachine specs i =
    ([], Ok {| id := i; context := tt; initial := name first;
               states := flow_states specs; on := ∅ |}).
Proof.
  intros Htgt Hplain Hhd.
  pose proof (plain_machine_accepted specs i first Htgt Hplain Hhd) as Hm.
  unfold makeFlowMachine.
  destruct specs as [|first' rest]; [done |]. injection Hhd as ->.
  unfold Basic.unknown_targets.
  rewrite (per_dangling_edge
             (λ e, (ConsoleError,
                    "[FlowMachine] Unknown target '" +:+ e.2 +:+ "' from state '" +:+ e.1 +:+ "'."))).
  rewrite (dangling_nil _ Htgt). simpl. f_equal. exact Hm.
Qed.

(** What the plain builders return, when they return. *)
Lemma createFlowMachine_Ok (specs : list FlowSpec) (i : string) (log : Console)
    (m : MachineConfig unit unit) :
  createFlowMachine specs i = (log, Ok m) →
  states m = flow_states specs ∧ on m = ∅.
Proof.
  unfold createFlowMachine. destruct specs as [|first rest]; [done |].
  intros [= _ Hm]. by apply createMachine_Ok in Hm as (-> & _).
Qed.

Lemma makeFlowMachine_Ok (specs : list FlowSpec) (i : string) (log : Console)
    (m : MachineConfig unit unit) :
  makeFlowMachine specs i = (log, Ok m) →
  states m = flow_states specs ∧ on m = ∅.
Proof.
  unfold makeFlowMachine. destruct specs as [|first rest]; [done |].
  intros [= _ Hm]. by apply createMachine_Ok in Hm as (-> & _).
Qed.

Lemma createFlowMachine_machine (specs : list FlowSpec) (i : string) (log : Console)
    (m : MachineConfig unit unit) :
  createFlowMachine specs i = (log, Ok m) →
  flow_machine specs m ∧ ∃ first, head specs = Some first ∧ initial m = name first.
Proof.
  intros Hm. pose proof (createFlowMachine_Ok specs i log m Hm) as [Hst Hon].
  unfold createFlowMachine in Hm. destruct specs as [|first rest]; [done |].
  injection Hm as _ Hm. apply createMachine_Ok in Hm as (Hc & _ & Hres & _).
  rewrite <- Hc in Hres. split.
  - split_and!; [done | done |]. intros k ts t. by rewrite Hon.
  - exists first. by rewrite Hc.
Qed.

Lemma makeFlowMachine_machine (specs : list FlowSpec) (i : string) (log : Console)
    (m : MachineConfig unit unit) :
  makeFlowMachine specs i = (log, Ok m) →
  flow_machine specs m ∧ ∃ first, head specs = Some first ∧ initial m = name first.
Proof.
  intros Hm. pose proof (makeFlowMachine_Ok specs i log m Hm) as [Hst Hon].
  unfold makeFlowMachine in Hm. destruct specs as [|first rest]; [done |].
  injection Hm as _ Hm. apply createMachine_Ok in Hm as (Hc & _ & Hres & _).
  rewrite <- Hc in Hres. split.
  - split_and!; [done | done |]. intros k ts t. by rewrite Hon.
  - exists first. by rewrite Hc.
Qed.

(** ** Edge events *)

Section EdgeFacts.
Context {C V : Type}.
Implicit Types (m : MachineConfig C V).

Lemma flow_fires_edges (specs : list FlowSpec) m :
  valid specs → flow_machine specs m → fires_edges specs m.
Proof.
  intros (_ & Hnd & Htgt) (Hst & _ & _) sp t Hsp Hterm Ht.
  assert (Hnode : states m !! name sp = Some (node (edges sp))).
  { rewrite Hst, (flow_states_lookup specs sp Hnd Hsp). unfold state_node.
    by rewrite Hterm. }
  split.
  - exists (edges sp). split; [done | by apply edges_lookup].
  - intros Hne a v Hcur Hact. cbv zeta.
    destruct (send_active m a {| type := "TO_" +:+ t; value := v |} Hact) as [-> ->].
    rewrite (transition_edge m (getSnapshot a) _ (edges sp) t).
    + simpl. by rewrite app_nil_r.
    + by rewrite Hcur.
    + by apply edges_lookup.
    + done.
    + rewrite Hst. apply flow_states_declared. by apply (Htgt sp).
Qed.


End EdgeFacts.

Lemma valid_intro (specs : list FlowSpec) :
  specs ≠ [] → NoDup (map name specs) →
  Forall (λ s, Forall (λ t, t ∈ map name specs) (to s)) specs →
  valid specs.
Proof.
  intros Hne Hnd Hall. split_and!; [done | done |].
  intros s t Hs Ht. rewrite Forall_forall in Hall.
  specialize (Hall s Hs). rewrite Forall_forall in Hall. by apply Hall.
Qed.

Lemma plain_intro (specs : list FlowSpec) :
  Forall (λ s, name s ≠ "") (take 1 specs) →
  Forall (λ s, path_free (name s) = true) specs →
  plain specs.
Proof.
  intros Hfirst Hall. split.
  - intros first Hhd. destruct specs as [|s0 specs]; [done |].
    injection Hhd as ->. by apply Forall_cons in Hfirst as [? _].
  - intros s Hs. rewrite Forall_forall in Hall. by apply Hall.
Qed.

Lemma flow3_valid : valid flow3.
Proof.
  apply valid_intro; [done | |].
  - apply (bool_decide_unpack _). by vm_compute.
  - apply (bool_decide_unpack _). by vm_compute.
Qed.

Lemma flow3_normalized_valid : valid (normalizeSpecs flow3).
Proof.
  apply valid_intro; [done | |].
  - apply (bool_decide_unpack _). by vm_compute.
  - apply (bool_decide_unpack _). by vm_compute.
Qed.

Lemma flow3_plain : plain flow3.
Proof. apply plain_intro; apply (bool_decide_unpack _); by vm_compute. Qed.

Lemma flow3_normalized_plain : plain (normalizeSpecs flow3).
Proof. apply plain_intro; apply (bool_decide_unpack _); by vm_compute. Qed.

(** The scenario of the specification, on all three builders: the actor
    starts in [Init], [TO_Edit] and [TO_Saved] move it, and in the terminal
    state [Saved] no edge event changes anything. *)
Example scenario_edges :
  (∃ m, createFlowMachineWithData flow3 0 (Some set_x) None "runtimeFlow" = Ok m ∧
        map (λ es, snap_value (getSnapshot (run m (start m) es)))
            [ []; [fire "TO_Edit" 0]; [fire "TO_Saved" 0];
              [fire "TO_Edit" 0; fire "TO_Saved" 0];
              [fire "TO_Edit" 0; fire "TO_Saved" 0; fire "TO_Edit" 0] ]
          = ["Init"; "Edit"; "Init"; "Saved"; "Saved"]) ∧
  (∃ m, createFlowMachine flow3 "runtimeFlow" = ([], Ok m) ∧
        map (λ ts, snap_value (getSnapshot
                     (run m (start m) (map (λ t, {| type := t; value := tt |}) ts))))
            [ []; ["TO_Edit"]; ["TO_Saved"]; ["TO_Edit"; "TO_Saved"];
              ["TO_Edit"; "TO_Saved"; "TO_Edit"] ]
          = ["Init"; "Edit"; "Init"; "Saved"; "Saved"]) ∧
  (∃ m, makeFlowMachine flow3 "runtimeFlow" = ([], Ok m) ∧
        map (λ ts, snap_value (getSnapshot
                     (run m (start m) (map (λ t, {| type := t; value := tt |}) ts))))
            [ []; ["TO_Edit"]; ["TO_Saved"]; ["TO_Edit"; "TO_Saved"];
              ["TO_Edit"; "TO_Saved"; "TO_Edit"] ]
          = ["Init"; "Edit"; "Init"; "Saved"; "Saved"]).
Proof.
  split_and!; (eexists; split; [reflexivity |]; by vm_compute).
Qed.

(** ** Construction *)

(** C8. For the empty spec list every builder throws the construction
    error "specs cannot be empty": the data-carrying builder, the builder
    of the plain runner and the builder of the console-only runner. *)
Theorem empty_specs_throw {D V : Type} (d : D)
    (u : option (gmap string (@Updater D V)))
    (r : option (gmap string (list string))) (i : string) :
  createFlowMachineWithData [] d u r i = Throw "specs cannot be empty" ∧
  createFlowMachine [] i = ([], Throw "specs cannot be empty") ∧
  makeFlowMachine [] i = ([], Throw "specs cannot be empty").
Proof. done. Qed.










(** ** Terminal states *)

Lemma final_absorbing {C V} (m : MachineConfig C V) (n : string) :
  states m !! n = Some final →
  (∀ k ts t, on m !! k = Some ts → t ∈ ts → target t = None) →
  absorbing m n.
Proof.
  intros Hfin Hroot. split; [done |]. intros a es. revert a.
  induction es as [|e es IH]; intros a Hcur; [done |].
  assert (Hown : own_table m (snap_value (getSnapshot a)) = ∅).
  { unfold own_table. by rewrite Hcur, Hfin. }
  simpl. apply IH. rewrite send_stays; [done | | | apply Hroot].
  - rewrite Hown. apply exact_table_empty.
  - by rewrite Hown, lookup_empty.
Qed.

Lemma terminal_final {C V} (specs : list FlowSpec) (sp : FlowSpec) :
  NoDup (map name specs) → sp ∈ specs → is_terminal sp = true →
  flow_states (C:=C) (V:=V) specs !! name sp = Some final.
Proof.
  intros Hnd Hsp Hterm. rewrite (flow_states_lookup specs sp Hnd Hsp).
  unfold state_node. by rewrite Hterm.
Qed.

(** C5, as stated, fails.  In [flow_override] the spec [Done] is marked
    terminal and a later spec declares [Done] again, with an edge to [Init].
    The lenient builders log the repeated name (the plain runner's does) and
    keep the last declaration: the state [Done] of the machine has the
    handler of [TO_Init], and the machine that has reached [Done] goes on to
    [Init]. *)
Lemma terminal_state_left :
  {| name := "Done"; to := []; terminal := Some true |} ∈ flow_override ∧
  (∃ log m, createFlowMachine flow_override "runtimeFlow" = (log, Ok m) ∧
     states m !! "Done" =
       Some (node (edges {| name := "Done"; to := ["Init"]; terminal := None |})) ∧
     snap_value (getSnapshot (run m (start m) [ {| type := "TO_Done"; value := tt |} ]))
       = "Done" ∧
     snap_value (getSnapshot (run m (start m) [ {| type := "TO_Done"; value := tt |};
                                                {| type := "TO_Init"; value := tt |} ]))
       = "Init") ∧
  (∃ log m, makeFlowMachine flow_override "runtimeFlow" = (log, Ok m) ∧
     states m !! "Done" =
       Some (node (edges {| name := "Done"; to := ["Init"]; terminal := None |})) ∧
     snap_value (getSnapshot (run m (start m) [ {| type := "TO_Done"; value := tt |} ]))
       = "Done" ∧
     snap_value (getSnapshot (run m (start m) [ {| type := "TO_Done"; value := tt |};
                                                {| type := "TO_Init"; value := tt |} ]))
       = "Init").
Proof.
  split; [right; left |].
  split; (eexists _, _; split; [reflexivity |]; by vm_compute).
Qed.

(** C5, amended. In a machine built from specs with pairwise distinct
    names, the state of every spec marked terminal is a final state,
    whatever its [to] list holds: it has no event handlers of its own, and
    once the current state is that state no sequence of events changes
    it. *)
Theorem terminal_states_absorb {D V : Type} (specs : list FlowSpec) (d : D)
    (u : option (gmap string (@Updater D V)))
    (r : option (gmap string (list string))) (i : string) :
  (∀ m sp, createFlowMachineWithData specs d u r i = Ok m →
     NoDup (map name (normalizeSpecs specs)) →
     sp ∈ normalizeSpecs specs → is_terminal sp = true → absorbing m (name sp)) ∧
  (∀ log m sp, createFlowMachine specs i = (log, Ok m) →
     NoDup (map name specs) →
     sp ∈ specs → is_terminal sp = true → absorbing m (name sp)) ∧
  (∀ log m sp, makeFlowMachine specs i = (log, Ok m) →
     NoDup (map name specs) →
     sp ∈ specs → is_terminal sp = true → absorbing m (name sp)).
Proof.
  split_and!.
  - intros m sp Hm Hnd Hsp Hterm.
    apply createFlowMachineWithData_Ok in Hm as (first & rest & _ & _ & _ & ->).
    apply final_absorbing; simpl.
    + by apply terminal_final.
    + intros k ts t. apply update_table_no_target.
  - intros log m sp Hm Hnd Hsp Hterm. apply createFlowMachine_Ok in Hm as [Hst Hon].
    apply final_absorbing.
    + rewrite Hst. by apply terminal_final.
    + intros k ts t. by rewrite Hon.
  - intros log m sp Hm Hnd Hsp Hterm. apply makeFlowMachine_Ok in Hm as [Hst Hon].
    apply final_absorbing.
    + rewrite Hst. by apply terminal_final.
    + intros k ts t. by rewrite Hon.
Qed.

Lemma terminal_states_absorb_witness :
  (∃ m, createFlowMachineWithData flow_loop 0 (Some set_x) None "runtimeFlow" = Ok m ∧
        absorbing m "Saved") ∧
  (∃ log m, createFlowMachine flow_loop "runtimeFlow" = (log, Ok m) ∧ absorbing m "Saved") ∧
  (∃ log m, makeFlowMachine flow_loop "runtimeFlow" = (log, Ok m) ∧ absorbing m "Saved").
Proof.
  destruct (terminal_states_absorb flow_loop 0 (Some set_x) None "runtimeFlow")
    as (H1 & H2 & H3).
  assert (Hnd : NoDup (map name flow_loop)).
  { apply (bool_decide_unpack _). by vm_compute. }
  split_and!.
  - eexists. split; [reflexivity |].
    apply (H1 _ {| name := "Saved"; to := ["Init"]; terminal := Some true |});
      [reflexivity | exact Hnd | right; left | reflexivity].
  - eexists _, _. split; [reflexivity |].
    eapply (H2 _ _ {| name := "Saved"; to := ["Init"]; terminal := Some true |});
      [reflexivity | exact Hnd | right; left | reflexivity].
  - eexists _, _. split; [reflexivity |].
    eapply (H3 _ _ {| name := "Saved"; to := ["Init"]; terminal := Some true |});
      [reflexivity | exact Hnd | right; left | reflexivity].
Defined.

(** ** Update events *)

Lemma no_edge_intro (specs : list FlowSpec) (cur e : string) :
  Forall (λ s, name s = cur →
               is_terminal s = true ∨ Forall (λ t, e ≠ "TO_" +:+ t) (to s)) specs →
  no_edge specs cur e.
Proof.
  intros Hall s Hs Hname. rewrite Forall_forall in Hall.
  destruct (Hall s Hs Hname) as [Hterm|Hto]; [by left | right].
  intros t Ht. rewrite Forall_forall in Hto. by apply Hto.
Qed.

Section UpdateFacts.
Context {D V : Type}.
Implicit Types (m : MachineConfig (DataContext D) V) (s : Snapshot (DataContext D))
  (e : Event V) (f : @Updater D V).


Lemma update_handler_restricted (r : option (gmap string (list string)))
    (k : string) f :
  map norm (default [] (r ≫= (λ rm, rm !! k))) ≠ [] →
  update_handler r k f =
    restricted_update k f (map norm (default [] (r ≫= (λ rm, rm !! k)))).
Proof.
  unfold update_handler. by destruct (map norm _).
Qed.

(** The unguarded assignment: the updater runs with the placeholder. *)
Lemma transition_free_update m s e f :
  exact_table (own_table m (snap_value s)) →
  own_table m (snap_value s) !! type e = None →
  on m !! type e = Some (free_update f) →
  transition m s e =
    ({| snap_value := snap_value s;
        snap_context := {| data := f (data (snap_context s)) (value e) "" |};
        status := status s |}, []).
Proof.
  intros Hex Hown Hroot. unfold transition. rewrite select_root by done.
  unfold next. simpl. by rewrite (candidates_exact _ _ _ Hroot).
Qed.

(** The guarded assignment: the guard takes [self] from its argument,
    where the runtime puts [context] and [event] only, and raises when it
    calls [getSnapshot] on it, whatever the current state. *)
Lemma transition_restricted m s e f (k : string) (allowed : list string) :
  exact_table (own_table m (snap_value s)) →
  own_table m (snap_value s) !! type e = None →
  on m !! type e = Some (restricted_update k f allowed) →
  ∃ message,
    transition m s e =
      ({| snap_value := snap_value s; snap_context := snap_context s;
          status := Error message |}, []).
Proof.
  intros Hex Hown Hroot. unfold transition. rewrite select_root by done.
  unfold next. simpl. rewrite (candidates_exact _ _ _ Hroot). simpl. by eexists.
Qed.

(** The assigner behind that guard would raise as well: it reads the
    global [self]. *)
Lemma restricted_assigner_throws f (k : string) (allowed : list string)
    (c : DataContext D) e :
  ∃ tr rest, restricted_update k f allowed = tr :: rest ∧
    run_actions (actions tr) c e = Throw "self.getSnapshot is not a function".
Proof. by eexists _, _. Qed.

Lemma createFlowMachineWithData_table (specs : list FlowSpec) (d : D)
    (u : option (gmap string (@Updater D V)))
    (r r' : option (gmap string (list string))) (i : string) :
  update_table u r = update_table u r' →
  createFlowMachineWithData specs d u r i = createFlowMachineWithData specs d u r' i.
Proof.
  unfold update_table, createFlowMachineWithData. intros Heq.
  destruct (normalizeSpecs specs) as [|first rest]; [done |].
  destruct (truthy _); [done |]. destruct (negb _); [done |].
  by rewrite Heq.
Qed.

End UpdateFacts.

(** C9, as stated, fails: [TO_Edit] is a key of the UpdateMap and also the
    edge event of [Init]; fired in [Init] it takes the edge, and the
    current state changes from [Init] to [Edit]. *)
Lemma update_event_named_like_edge_moves :
  ∃ m, createFlowMachineWithData flow2 0 (Some to_edit) None "runtimeFlow" = Ok m ∧
       is_Some (to_edit !! "TO_Edit") ∧
       snap_value (getSnapshot (start m)) = "Init" ∧
       snap_value (getSnapshot (send m (start m) (fire "TO_Edit" 5))) = "Edit" ∧
       snap_value (getSnapshot (send m (start m) (fire "TO_Edit" 5)))
         ≠ snap_value (getSnapshot (start m)).
Proof.
  eexists. split; [reflexivity |]. split; [by eexists |]. by vm_compute.
Qed.

(** C9, amended. The handlers installed for the update events have no
    target, and an event that is not an edge event of the current state,
    in particular an update event whose name is not one, never changes the
    current state: at most the attached data is replaced. *)
Theorem update_events_keep_state {D V : Type} (specs : list FlowSpec) (d : D)
    (u : option (gmap string (@Updater D V)))
    (r : option (gmap string (list string))) (i : string)
    (m : MachineConfig (DataContext D) V) (a : Actor (DataContext D)) (e : Event V) :
  createFlowMachineWithData specs d u r i = Ok m →
  no_edge (normalizeSpecs specs) (snap_value (getSnapshot a)) (type e) →
  (∀ k ts t, on m !! k = Some ts → t ∈ ts → target t = None) ∧
  snap_value (getSnapshot (send m a e)) = snap_value (getSnapshot a).
Proof.
  intros Hm Hno.
  apply createFlowMachineWithData_machine in Hm as (Hfm & _).
  split; [apply Hfm |].
  apply send_stays; [| | apply Hfm].
  - by apply (own_table_exact (normalizeSpecs specs)).
  - apply (own_table_no_edge (normalizeSpecs specs)); [apply Hfm | done].
Qed.

Lemma update_events_keep_state_witness :
  ∃ m, createFlowMachineWithData flow3 0 (Some set_x) None "runtimeFlow" = Ok m ∧
       (∀ k ts t, on m !! k = Some ts → t ∈ ts → target t = None) ∧
       snap_value (getSnapshot (send m (start m) (fire "SET_X" 5)))
         = snap_value (getSnapshot (start m)).
Proof.
  eexists. split; [reflexivity |].
  apply (update_events_keep_state flow3 0 (Some set_x) None "runtimeFlow").
  - reflexivity.
  - apply no_edge_intro, (bool_decide_unpack _). by vm_compute.
Defined.








(** C3. The claim says that a restricted update event fired in an allowed
    state replaces the data by the updater's return value, and that fired
    in any other state it leaves the data alone, writes a warning and is
    never fatal.  The machine the builder returns does neither.  The guard
    of a restricted event takes [self] from its argument, and the runtime
    calls guards with the context and the event only: when the event
    reaches its handler on the running machine, in an allowed state or not,
    the guard raises, the updater is not run, no warning is written, the
    data and the current state are left as they were and the actor ends in
    its error status. *)
Theorem restricted_update_throws {D V : Type} (specs : list FlowSpec) (d : D)
    (u : option (gmap string (@Updater D V)))
    (rm : gmap string (list string)) (i : string)
    (m : MachineConfig (DataContext D) V) (k : string) (f : @Updater D V)
    (l : list string) (a : Actor (DataContext D)) (v : V) :
  createFlowMachineWithData specs d u (Some rm) i = Ok m →
  default ∅ u !! k = Some f →
  rm !! k = Some l → l ≠ [] →
  reserved k = false →
  status (getSnapshot a) = Active →
  no_edge (normalizeSpecs specs) (snap_value (getSnapshot a)) k →
  ∃ message,
    send m a {| type := k; value := v |} =
      {| getSnapshot :=
           {| snap_value := snap_value (getSnapshot a);
              snap_context := snap_context (getSnapshot a);
              status := Error message |};
         console := console a |}.
Proof.
  intros Hm Hf Hk Hl _ Hact Hno.
  pose proof (createFlowMachineWithData_machine _ _ _ _ _ _ Hm) as (Hfm & _).
  apply createFlowMachineWithData_Ok in Hm as (first & rest & _ & _ & _ & Heq).
  destruct (transition_restricted m (getSnapshot a) {| type := k; value := v |} f k
              (map norm l)) as [message Ht].
  - by apply (own_table_exact (normalizeSpecs specs)).
  - apply (own_table_no_edge (normalizeSpecs specs)); [apply Hfm | done].
  - rewrite Heq. simpl. rewrite update_table_lookup, Hf. simpl. f_equal.
    rewrite update_handler_restricted; simpl; rewrite Hk; simpl; [done |].
    by destruct l.
  - exists message. unfold send. rewrite Hact, Ht. simpl. by rewrite app_nil_r.
Qed.

Lemma restricted_update_throws_witness :
  ∃ m, createFlowMachineWithData flow3 0 (Some set_x) (Some set_x_in_edit) "runtimeFlow"
         = Ok m ∧
       let a := send m (start m) (fire "TO_Edit" 0) in
       snap_value (getSnapshot a) = "Edit" ∧
       ∃ message,
         send m a (fire "SET_X" 5) =
           {| getSnapshot :=
                {| snap_value := "Edit"; snap_context := {| data := 0 |};
                   status := Error message |};
              console := [] |}.
Proof.
  eexists. split; [reflexivity |]. split; [reflexivity |].
  apply (restricted_update_throws flow3 0 (Some set_x) set_x_in_edit "runtimeFlow" _
           "SET_X" (λ _ v _, v) ["Edit"]).
  - reflexivity.
  - reflexivity.
  - reflexivity.
  - done.
  - reflexivity.
  - reflexivity.
  - apply no_edge_intro, (bool_decide_unpack _). by vm_compute.
Defined.

(** The scenario of the specification: [SET_X] is allowed in [Edit] only.
    Fired in [Edit] it does not set the data to 5, and fired in [Init] it
    writes no warning; both times the actor is left in its error status. *)
Example restricted_update_scenario :
  ∃ m, createFlowMachineWithData flow3 0 (Some set_x) (Some set_x_in_edit) "runtimeFlow"
         = Ok m ∧
       let in_init := send m (start m) (fire "SET_X" 5) in
       let in_edit := send m (send m (start m) (fire "TO_Edit" 0)) (fire "SET_X" 5) in
       data (snap_context (getSnapshot in_init)) = 0 ∧ console in_init = [] ∧
       status (getSnapshot in_init) ≠ Active ∧
       snap_value (getSnapshot (send m in_init (fire "TO_Edit" 0))) = "Init" ∧
       data (snap_context (getSnapshot in_edit)) = 0 ∧ console in_edit = [] ∧
       status (getSnapshot in_edit) ≠ Active.
Proof. eexists. split; [reflexivity |]. by vm_compute. Qed.

(** ** Duplicate names *)

(** A repeated name that is not empty is found and is truthy: the strict
    builder throws, the lenient one logs the error first. *)
Lemma duplicate_name_found (names : list string) :
  ¬ NoDup names → "" ∉ names →
  ∃ dup, find_dup names = Some dup ∧ truthy (find_dup names) = true.
Proof.
  intros Hdup Hne. destruct (find_dup names) as [dup|] eqn:E.
  - exists dup. split; [done |]. simpl. apply negb_true_iff, String.eqb_neq.
    intros ->. apply Hne. by apply find_dup_elem.
  - destruct Hdup. by apply find_dup_None.
Qed.

Lemma duplicate_name_throws {D V : Type} (specs : list FlowSpec) (d : D)
    (u : option (gmap string (@Updater D V)))
    (r : option (gmap string (list string))) (i : string) :
  ¬ NoDup (map name (normalizeSpecs specs)) → "" ∉ map name (normalizeSpecs specs) →
  ∃ dup, createFlowMachineWithData specs d u r i =
           Throw ("[FlowRunnerWithData] Duplicate state name: '" +:+ dup +:+ "'.").
Proof.
  intros Hdup Hne. destruct (duplicate_name_found _ Hdup Hne) as (dup & Hfind & Htruthy).
  exists dup. unfold createFlowMachineWithData.
  destruct (normalizeSpecs specs) as [|first rest] eqn:E.
  - destruct Hdup. constructor.
  - by rewrite Htruthy, Hfind.
Qed.

Lemma duplicate_name_logged (specs : list FlowSpec) (i : string) :
  ¬ NoDup (map name specs) → "" ∉ map name specs →
  ∃ dup log,
    (createFlowMachine specs i).1 =
      (ConsoleError, "[FlowRunner] Duplicate state name: '" +:+ dup +:+ "'.") :: log.
Proof.
  intros Hdup Hne. destruct (duplicate_name_found _ Hdup Hne) as (dup & Hfind & Htruthy).
  exists dup. unfold createFlowMachine. destruct specs as [|first rest].
  - destruct Hdup. constructor.
  - rewrite Htruthy, Hfind. simpl. by eexists.
Qed.

(** C6. The claim says that two specs sharing a name make the strict
    builder throw and the lenient builder log an error.  When the shared
    name is the empty string, [find] returns it, the test [if (dup)] takes
    it for "nothing found", and neither happens: after [Init], two specs
    with the empty name give a machine in the strict builder, which throws
    nothing, and a machine in the lenient builder, which logs nothing. *)
Theorem empty_duplicate_name_accepted :
  map name (normalizeSpecs blank_twice) = ["Init"; ""; ""] ∧
  find_dup (map name (normalizeSpecs blank_twice)) = Some "" ∧
  (∃ m, createFlowMachineWithData (V:=nat) blank_twice 0 None None "runtimeFlow" = Ok m ∧
        status (getSnapshot (start m)) = Active) ∧
  map name empty_twice = ["Init"; ""; ""] ∧
  find_dup (map name empty_twice) = Some "" ∧
  (∃ m, createFlowMachine empty_twice "runtimeFlow" = ([], Ok m) ∧
        status (getSnapshot (start m)) = Active).
Proof.
  split_and!; try (by vm_compute); (eexists; split; [reflexivity | by vm_compute]).
Qed.

(** ** Dangling targets *)

Lemma fromEntries_lookup_last {A} (l1 l2 : list (string * A)) (k : string) (v : A) :
  k ∉ l2.*1 → fromEntries (l1 ++ (k, v) :: l2) !! k = Some v.
Proof.
  induction l2 as [|[k' v'] l2 IH] using rev_ind; intros Hk.
  - rewrite fromEntries_snoc. apply lookup_insert_eq.
  - rewrite fmap_app in Hk. apply not_elem_of_app in Hk as [Hk Hk'].
    rewrite app_comm_cons, app_assoc, fromEntries_snoc.
    rewrite lookup_insert_ne.
    + by apply IH.
    + intros ->. apply Hk'. simpl. left.
Qed.

Lemma flow_states_last {C V} (pre post : list FlowSpec) (sp : FlowSpec) :
  name sp ∉ map name post →
  flow_states (C:=C) (V:=V) (pre ++ sp :: post) !! name sp = Some (state_node sp).
Proof.
  intros Hn. unfold flow_states. rewrite map_app. simpl.
  apply fromEntries_lookup_last. intros Hin. apply Hn.
  apply list_elem_of_fmap in Hin as ([k v] & -> & Hin). simpl.
  apply list_elem_of_In, in_map_iff in Hin as (s & [= <- _] & Hs).
  apply list_elem_of_In, in_map_iff. by exists s.
Qed.

Lemma flow_states_dom {C V} (specs : list FlowSpec) (n : string) :
  is_Some (flow_states (C:=C) (V:=V) specs !! n) ↔ n ∈ map name specs.
Proof.
  split; [| apply flow_states_declared].
  intros [nd Hnd]. apply flow_states_lookup_inv in Hnd as (sp & Hsp & <- & _).
  apply list_elem_of_In, in_map_iff. exists sp. by rewrite <- list_elem_of_In.
Qed.





Example flow_dangling_messages :
  createFlowMachineWithData (V:=nat) flow_dangling 0 None None "runtimeFlow" =
    Throw "[FlowRunnerWithData] Undefined targets: 'Init' -> 'Gone', 'Edit' -> 'Lost'" ∧
  (createFlowMachine flow_dangling "runtimeFlow").1 =
    [ (ConsoleError, "[FlowRunner] Unknown target 'Gone' from 'Init'.");
      (ConsoleError, "[FlowRunner] Unknown target 'Lost' from 'Edit'.") ] ∧
  (makeFlowMachine flow_dangling "runtimeFlow").1 =
    [ (ConsoleError, "[FlowMachine] Unknown target 'Gone' from state 'Init'.");
      (ConsoleError, "[FlowMachine] Unknown target 'Lost' from state 'Edit'.") ].
Proof. by vm_compute. Qed.

(** A dangling edge that does not reach the runtime: the spec that lists
    it is terminal.  The lenient builders log it and return the machine. *)
Example dangling_target_of_terminal_spec :
  (∃ m, createFlowMachine flow_dead_end "runtimeFlow" =
          ([ (ConsoleError, "[FlowRunner] Unknown target 'Gone' from 'Saved'.") ], Ok m)) ∧
  (∃ m, makeFlowMachine flow_dead_end "runtimeFlow" =
          ([ (ConsoleError, "[FlowMachine] Unknown target 'Gone' from state 'Saved'.") ],
           Ok m)).
Proof. split; by eexists. Qed.


(** ** Normalization *)

Lemma trimStart_strips (s : string) :
  ∃ l, s = l +:+ trimStart s ∧ blank l = true.
Proof.
  induction s as [|c s IH]; simpl.
  - by exists EmptyString.
  - destruct (is_white_space c) eqn:Hc.
    + destruct IH as (l & Hl & Hb). exists (String c l).
      rewrite append_cons, <- Hl. simpl. by rewrite Hc, Hb.
    + by exists EmptyString.
Qed.

Lemma trimEnd_strips (s : string) :
  ∃ r, s = trimEnd s +:+ r ∧ blank r = true.
Proof.
  induction s as [|c s IH]; simpl.
  - by exists EmptyString.
  - destruct IH as (r & Hr & Hb). destruct (trimEnd s) as [|c' t] eqn:E.
    + rewrite append_empty in Hr. subst r. destruct (is_white_space c) eqn:Hc.
      * exists (String c s). rewrite append_empty. simpl. by rewrite Hc, Hb.
      * by exists s.
    + exists r. rewrite append_cons, <- Hr. done.
Qed.

Lemma trimStart_starts (s : string) : starts_blank (trimStart s) = false.
Proof.
  induction s as [|c s IH]; simpl; [done |].
  destruct (is_white_space c) eqn:Hc; [done | by simpl].
Qed.

Lemma trimEnd_ends (s : string) : ends_blank (trimEnd s) = false.
Proof.
  induction s as [|c s IH]; simpl; [done |].
  destruct (trimEnd s) as [|c' t] eqn:E.
  - destruct (is_white_space c) eqn:Hc; [done | by simpl].
  - done.
Qed.

Lemma trimEnd_starts (s : string) :
  starts_blank s = false → starts_blank (trimEnd s) = false.
Proof.
  destruct s as [|c s]; simpl; [done |]. intros Hc.
  destruct (trimEnd s); [by rewrite Hc | done].
Qed.

Lemma trimStart_fixed (s : string) : starts_blank s = false → trimStart s = s.
Proof. destruct s as [|c s]; simpl; [done |]. by intros ->. Qed.

Lemma trimEnd_fixed (s : string) : ends_blank s = false → trimEnd s = s.
Proof.
  induction s as [|c s IH]; simpl; [done |].
  destruct s as [|c' s'].
  - simpl. by intros ->.
  - intros Hs. by rewrite IH.
Qed.

Lemma norm_idempotent (s : string) : norm (norm s) = norm s.
Proof.
  unfold norm, trim.
  rewrite (trimStart_fixed (trimEnd (trimStart s))).
  - apply trimEnd_fixed, trimEnd_ends.
  - apply trimEnd_starts, trimStart_starts.
Qed.

Lemma normalizeSpecs_idempotent (specs : list FlowSpec) :
  normalizeSpecs (normalizeSpecs specs) = normalizeSpecs specs.
Proof.
  unfold normalizeSpecs. rewrite map_map. apply map_ext. intros s. simpl.
  rewrite norm_idempotent, map_map. f_equal. apply map_ext, norm_idempotent.
Qed.

(** X1. [norm] removes the white space at the two ends and nothing else:
    the string is the trimmed string between two runs of white space, and
    the trimmed string neither starts nor ends with white space. *)
Theorem norm_strips_blank_ends (s : string) :
  ∃ l r, s = l +:+ norm s +:+ r ∧ blank l = true ∧ blank r = true ∧
         starts_blank (norm s) = false ∧ ends_blank (norm s) = false.
Proof.
  destruct (trimStart_strips s) as (l & Hl & Hbl).
  destruct (trimEnd_strips (trimStart s)) as (r & Hr & Hbr).
  exists l, r. split_and!; [| done | done | |].
  - unfold norm, trim. by rewrite <- Hr.
  - apply trimEnd_starts, trimStart_starts.
  - apply trimEnd_ends.
Qed.

(** X2. [norm] returns a string that neither starts nor ends with white
    space, and it returns its argument unchanged exactly when the argument
    is such a string; white space inside a name is kept. *)
Theorem norm_fixed_iff (s : string) :
  starts_blank (norm s) = false ∧ ends_blank (norm s) = false ∧
  (norm s = s ↔ starts_blank s = false ∧ ends_blank s = false).
Proof.
  assert (Hs : starts_blank (norm s) = false).
  { apply trimEnd_starts, trimStart_starts. }
  assert (He : ends_blank (norm s) = false) by apply trimEnd_ends.
  split_and!; [done | done |]. split.
  - intros Heq. by rewrite <- Heq.
  - intros [H1 H2]. unfold norm, trim. rewrite (trimStart_fixed s H1).
    by apply trimEnd_fixed.
Qed.

(** X3. The runner normalizes the specs before it calls the builder, which
    normalizes them again: the second normalization changes nothing, and the
    builder returns for normalized specs what it returns for the raw ones. *)
Theorem builder_normalizes_once {D V : Type} (specs : list FlowSpec) (d : D)
    (u : option (gmap string (@Updater D V)))
    (r : option (gmap string (list string))) (i : string) :
  normalizeSpecs (normalizeSpecs specs) = normalizeSpecs specs ∧
  createFlowMachineWithData (normalizeSpecs specs) d u r i =
    createFlowMachineWithData specs d u r i.
Proof.
  split; [apply normalizeSpecs_idempotent |].
  unfold createFlowMachineWithData. by rewrite normalizeSpecs_idempotent.
Qed.

(** ** The RestrictionMap *)

(** X4. The names in a RestrictionMap entry are trimmed before they are
    compared with the current state: a RestrictionMap whose names are
    already trimmed gives the same machine. *)
Theorem restriction_names_trimmed {D V : Type} (specs : list FlowSpec) (d : D)
    (u : option (gmap string (@Updater D V)))
    (rm : gmap string (list string)) (i : string) :
  createFlowMachineWithData specs d u (Some (map norm <$> rm)) i =
    createFlowMachineWithData specs d u (Some rm) i.
Proof.
  apply createFlowMachineWithData_table. apply map_eq. intros k.
  rewrite !update_table_lookup. destruct (default ∅ u !! k) as [f|]; [|done].
  simpl. f_equal. unfold update_handler. simpl. rewrite lookup_fmap.
  destruct (rm !! k) as [l|]; simpl; [|done].
  rewrite map_map. by rewrite (map_ext _ norm norm_idempotent).
Qed.

(** X5. A RestrictionMap entry for an event that has no UpdateMap entry
    installs nothing: the builder returns what it returns without it. *)
Theorem restriction_without_update_ignored {D V : Type} (specs : list FlowSpec) (d : D)
    (u : option (gmap string (@Updater D V)))
    (rm : gmap string (list string)) (i : string) (k : string) (l : list string) :
  default ∅ u !! k = None →
  createFlowMachineWithData specs d u (Some (<[k := l]> rm)) i =
    createFlowMachineWithData specs d u (Some rm) i.
Proof.
  intros Hk. apply createFlowMachineWithData_table. apply map_eq. intros k'.
  rewrite !update_table_lookup. destruct (default ∅ u !! k') as [f|] eqn:E; [|done].
  simpl. f_equal. unfold update_handler. simpl.
  rewrite lookup_insert_ne; [done |]. intros ->. congruence.
Qed.

Lemma restriction_without_update_ignored_witness :
  createFlowMachineWithData flow3 0 (Some set_x) (Some (<["SET_Y" := ["Edit"]]> set_x_in_edit))
    "runtimeFlow" =
  createFlowMachineWithData flow3 0 (Some set_x) (Some set_x_in_edit) "runtimeFlow".
Proof.
  apply (restriction_without_update_ignored flow3 0 (Some set_x) set_x_in_edit "runtimeFlow"
           "SET_Y" ["Edit"]).
  reflexivity.
Defined.

(** ** Duplicate detection and the conditions of success *)

Lemma find_dup_from_Some (names pre xs : list string) (d : string) :
  names = pre ++ xs → NoDup pre →
  find_from (λ n i, negb (indexOf names n =? i)%Z) (Z.of_nat (length pre)) xs = Some d →
  ∃ seen rest, names = seen ++ d :: rest ∧ NoDup seen ∧ d ∈ seen.
Proof.
  revert pre. induction xs as [|x xs IH]; intros pre -> Hnd; simpl; [done |].
  destruct (negb _) eqn:Hp.
  - intros [= ->]. exists pre, xs. split_and!; [done | done |].
    destruct (decide (d ∈ pre)) as [Hin|Hnin]; [done |].
    apply negb_true_iff, Z.eqb_neq in Hp. destruct Hp.
    unfold indexOf. rewrite indexOf_from_app by done. lia.
  - intros Hrest. apply negb_false_iff, Z.eqb_eq in Hp.
    assert (Hx : x ∉ pre).
    { intros Hin. pose proof (indexOf_from_lt 0 pre (x :: xs) x Hin) as Hlt.
      unfold indexOf in Hp. lia. }
    apply (IH (pre ++ [x])).
    + by rewrite <- app_assoc.
    + apply NoDup_app. split_and!; [done | | apply NoDup_singleton].
      intros y Hy Hy'. apply list_elem_of_singleton in Hy'. by subst y.
    + rewrite length_app. simpl.
      by replace (Z.of_nat (length pre + 1)) with (Z.of_nat (length pre) + 1)%Z by lia.
Qed.

Lemma find_dup_from_first (names seen rest post : list string) (d : string) :
  names = seen ++ rest ++ d :: post → NoDup (seen ++ rest) → d ∈ seen ++ rest →
  find_from (λ n i, negb (indexOf names n =? i)%Z) (Z.of_nat (length seen))
            (rest ++ d :: post) = Some d.
Proof.
  revert seen. induction rest as [|x rest IH]; intros seen Hnames Hnd Hd; simpl.
  - rewrite app_nil_r in Hd, Hnd. simpl in Hnames.
    pose proof (indexOf_from_lt 0 seen (d :: post) d Hd) as Hlt.
    rewrite <- Hnames in Hlt. fold (indexOf names d) in Hlt.
    destruct (Z.eqb_spec (indexOf names d) (Z.of_nat (length seen))) as [Heq|_]; [lia | done].
  - assert (Hx : x ∉ seen).
    { apply NoDup_app in Hnd as (_ & Hdisj & _). intros Hin.
      apply (Hdisj x Hin). left. }
    assert (Hidx : indexOf names x = Z.of_nat (length seen)).
    { rewrite Hnames. unfold indexOf. simpl. rewrite indexOf_from_app by done. lia. }
    rewrite Hidx, Z.eqb_refl. simpl.
    replace (Z.of_nat (length seen) + 1)%Z with (Z.of_nat (length (seen ++ [x])))
      by (rewrite length_app; simpl; lia).
    apply IH.
    + by rewrite <- app_assoc.
    + by rewrite <- app_assoc.
    + by rewrite <- app_assoc.
Qed.

(** X6. The duplicate search returns the first name of the list that
    repeats an earlier one: the names before it are pairwise distinct and
    it is among them.  Every such position is found. *)
Theorem find_dup_first_repeat (names : list string) (d : string) :
  find_dup names = Some d ↔
  ∃ seen rest, names = seen ++ d :: rest ∧ NoDup seen ∧ d ∈ seen.
Proof.
  split.
  - intros H. apply (find_dup_from_Some names [] names); [done | constructor | done].
  - intros (seen & rest & Hnames & Hnd & Hd).
    subst names.
    exact (find_dup_from_first (seen ++ d :: rest) [] seen rest d eq_refl Hnd Hd).
Qed.

Lemma dangling_nil_inv (specs : list FlowSpec) :
  dangling specs = [] → ∀ s t, s ∈ specs → t ∈ to s → t ∈ map name specs.
Proof.
  intros Hnil s t Hs Ht. destruct (decide (t ∈ map name specs)) as [|Hn]; [done |].
  assert (Hin : (name s, t) ∈ dangling specs).
  { apply dangling_elem. by exists s. }
  rewrite Hnil in Hin. by apply elem_of_nil in Hin.
Qed.

Lemma falsy_dup_NoDup (names : list string) :
  EmptyString ∉ names → truthy (find_dup names) = false → NoDup names.
Proof.
  intros Hne Hf. apply find_dup_None. destruct (find_dup names) as [dup|] eqn:E; [|done].
  simpl in Hf. apply negb_false_iff, String.eqb_eq in Hf. subst dup.
  destruct Hne. by apply find_dup_elem.
Qed.



(** X8. When some normalized name repeats and none is empty, the
    data-carrying builder throws the duplicate-name error for the first
    name that repeats an earlier one, whether or not targets are missing
    as well. *)
Theorem strict_builder_reports_first_duplicate {D V : Type} (specs : list FlowSpec) (d : D)
    (u : option (gmap string (@Updater D V)))
    (r : option (gmap string (list string))) (i : string) :
  ¬ NoDup (map name (normalizeSpecs specs)) →
  EmptyString ∉ map name (normalizeSpecs specs) →
  ∃ seen dup rest,
    map name (normalizeSpecs specs) = seen ++ dup :: rest ∧ NoDup seen ∧ dup ∈ seen ∧
    createFlowMachineWithData specs d u r i =
      Throw ("[FlowRunnerWithData] Duplicate state name: '" +:+ dup +:+ "'.").
Proof.
  intros Hdup Hne.
  destruct (duplicate_name_found _ Hdup Hne) as (dup & Hfind & Htruthy).
  pose proof Hfind as Hfirst.
  apply (find_dup_from_Some _ [] _) in Hfirst as (seen & rest & Hnames & Hnd & Hin);
    [| done | constructor].
  exists seen, dup, rest. split_and!; [done | done | done |].
  unfold createFlowMachineWithData.
  destruct (normalizeSpecs specs) as [|first more] eqn:E.
  - destruct Hdup. constructor.
  - by rewrite Htruthy, Hfind.
Qed.

(** Two specs named [Edit] once trimmed, the second with a dangling target. *)
Lemma strict_builder_reports_first_duplicate_witness :
  ∃ seen dup rest,
    map name (normalizeSpecs
      [ {| name := "Init"; to := ["Edit"]; terminal := None |};
        {| name := "Edit"; to := []; terminal := None |};
        {| name := " Edit "; to := ["Gone"]; terminal := None |} ]) = seen ++ dup :: rest ∧
    NoDup seen ∧ dup ∈ seen ∧
    createFlowMachineWithData (V:=nat)
      [ {| name := "Init"; to := ["Edit"]; terminal := None |};
        {| name := "Edit"; to := []; terminal := None |};
        {| name := " Edit "; to := ["Gone"]; terminal := None |} ] 0 None None "runtimeFlow" =
      Throw ("[FlowRunnerWithData] Duplicate state name: '" +:+ dup +:+ "'.").
Proof.
  apply strict_builder_reports_first_duplicate.
  - intros Hnd. apply (bool_decide_pack _) in Hnd. by vm_compute in Hnd.
  - apply (bool_decide_unpack _). by vm_compute.
Defined.

(** ** The lenient builders *)

Lemma all_declared_iff (specs : list FlowSpec) :
  dangling specs = [] ↔ ∀ s t, s ∈ specs → t ∈ to s → t ∈ map name specs.
Proof. split; [apply dangling_nil_inv | apply dangling_nil]. Qed.

(** X9. On a non-empty list without empty names the plain builder
    writes nothing to the console exactly when the spec set is valid; and
    for a valid spec set whose names have no ['.'], ['\'] or leading
    ['#'] in them it returns a machine. *)
Theorem plain_builder_silent_iff_valid (specs : list FlowSpec) (i : string) :
  specs ≠ [] → EmptyString ∉ map name specs →
  ((createFlowMachine specs i).1 = [] ↔ valid specs) ∧
  (valid specs → (∀ s, s ∈ specs → path_free (name s) = true) →
   ∃ m, (createFlowMachine specs i).2 = Ok m).
Proof.
  intros Hne Hnames. split.
  - unfold createFlowMachine.
    destruct specs as [|first rest]; [done |].
    unfold Plain.unknown_targets.
    rewrite (per_dangling_edge
               (λ e, (ConsoleError,
                      "[FlowRunner] Unknown target '" +:+ e.2 +:+ "' from '" +:+ e.1 +:+ "'."))).
    cbn [fst]. split.
    + intros Hlog. apply app_eq_nil in Hlog as [Hdup Hd].
      apply map_eq_nil in Hd. split_and!; [done | | by apply dangling_nil_inv].
      apply falsy_dup_NoDup; [done |]. by destruct (truthy _).
    + intros (_ & Hnd & Htgt). apply find_dup_None in Hnd. rewrite Hnd.
      by rewrite (dangling_nil _ Htgt).
  - intros Hv Hfree. destruct specs as [|first rest]; [done |].
    rewrite (createFlowMachine_valid _ i first Hv); [by eexists | | done].
    split; [| done]. intros first' [= <-] Hempty. apply Hnames. rewrite <- Hempty. left.
Qed.

Lemma plain_builder_silent_iff_valid_witness :
  ((createFlowMachine flow3 "runtimeFlow").1 = [] ↔ valid flow3) ∧
  ∃ m, (createFlowMachine flow3 "runtimeFlow").2 = Ok m.
Proof.
  destruct (plain_builder_silent_iff_valid flow3 "runtimeFlow") as [H1 H2]; [done | |].
  - apply (bool_decide_unpack _). by vm_compute.
  - split; [exact H1 |]. apply H2; [apply flow3_valid | apply flow3_plain].
Defined.

(** X10. The console-only builder reports dangling targets and nothing
    else: on a non-empty list its console output is empty exactly when
    every target is declared, whether or not names repeat; and it returns
    a machine then, also when names repeat, if the first name is not empty
    and the names have no ['.'], ['\'] or leading ['#'] in them. *)
Theorem basic_builder_reports_only_targets (specs : list FlowSpec) (i : string) :
  specs ≠ [] →
  ((makeFlowMachine specs i).1 = [] ↔
   ∀ s t, s ∈ specs → t ∈ to s → t ∈ map name specs) ∧
  ((∀ s t, s ∈ specs → t ∈ to s → t ∈ map name specs) → plain specs →
   ∃ m, (makeFlowMachine specs i).2 = Ok m).
Proof.
  intros Hne. split.
  - unfold makeFlowMachine.
    destruct specs as [|first rest]; [done |].
    unfold Basic.unknown_targets.
    rewrite (per_dangling_edge
               (λ e, (ConsoleError,
                      "[FlowMachine] Unknown target '" +:+ e.2 +:+ "' from state '" +:+ e.1 +:+ "'."))).
    cbn [fst]. rewrite <- all_declared_iff. split.
    + apply map_eq_nil.
    + by intros ->.
  - intros Htgt Hp. destruct specs as [|first rest]; [done |].
    rewrite (makeFlowMachine_valid _ i first Htgt Hp); [by eexists | done].
Qed.

Lemma basic_builder_reports_only_targets_witness :
  ((makeFlowMachine flow_override "runtimeFlow").1 = [] ↔
   ∀ s t, s ∈ flow_override → t ∈ to s → t ∈ map name flow_override) ∧
  ∃ m, (makeFlowMachine flow_override "runtimeFlow").2 = Ok m.
Proof.
  destruct (basic_builder_reports_only_targets flow_override "runtimeFlow") as [H1 H2];
    [done |].
  split; [exact H1 |]. apply H2.
  - by apply H1.
  - apply plain_intro; apply (bool_decide_unpack _); by vm_compute.
Defined.

(** X11. When a name is declared more than once, the lenient builders
    keep the last declaration: the state stored under the name is the one
    of the last spec that carries it, final if that spec is terminal and
    with that spec's edges otherwise. *)
Theorem lenient_builders_keep_last (pre post : list FlowSpec) (sp : FlowSpec) (i : string) :
  name sp ∉ map name post →
  (∀ log m, createFlowMachine (pre ++ sp :: post) i = (log, Ok m) →
     states m !! name sp = Some (if is_terminal sp then final else node (edges sp))) ∧
  (∀ log m, makeFlowMachine (pre ++ sp :: post) i = (log, Ok m) →
     states m !! name sp = Some (if is_terminal sp then final else node (edges sp))).
Proof.
  intros Hn. split.
  - intros log m Hm. apply createFlowMachine_Ok in Hm as [-> _]. by apply flow_states_last.
  - intros log m Hm. apply makeFlowMachine_Ok in Hm as [-> _]. by apply flow_states_last.
Qed.

Lemma lenient_builders_keep_last_witness :
  (∀ log m, createFlowMachine flow_override "runtimeFlow" = (log, Ok m) →
     states m !! "Done" =
       Some (node (edges {| name := "Done"; to := ["Init"]; terminal := None |}))) ∧
  (∀ log m, makeFlowMachine flow_override "runtimeFlow" = (log, Ok m) →
     states m !! "Done" =
       Some (node (edges {| name := "Done"; to := ["Init"]; terminal := None |}))).
Proof.
  apply (lenient_builders_keep_last
           [ {| name := "Init"; to := ["Done"]; terminal := None |};
             {| name := "Done"; to := []; terminal := Some true |} ] []
           {| name := "Done"; to := ["Init"]; terminal := None |} "runtimeFlow").
  apply not_elem_of_nil.
Defined.

(** X12. The machine a builder returns has a state for every declared
    name and for no other name; in the data-carrying builder the names are
    the trimmed ones. *)
Theorem states_are_the_declared_names {D V : Type} (specs : list FlowSpec) (d : D)
    (u : option (gmap string (@Updater D V)))
    (r : option (gmap string (list string))) (i : string) :
  (∀ m n, createFlowMachineWithData specs d u r i = Ok m →
     is_Some (states m !! n) ↔ n ∈ map name (normalizeSpecs specs)) ∧
  (∀ log m n, createFlowMachine specs i = (log, Ok m) →
     is_Some (states m !! n) ↔ n ∈ map name specs) ∧
  (∀ log m n, makeFlowMachine specs i = (log, Ok m) →
     is_Some (states m !! n) ↔ n ∈ map name specs).
Proof.
  split_and!.
  - intros m n Hm.
    apply createFlowMachineWithData_Ok in Hm as (first & rest & _ & _ & _ & ->).
    apply flow_states_dom.
  - intros log m n Hm. apply createFlowMachine_Ok in Hm as [-> _]. apply flow_states_dom.
  - intros log m n Hm. apply makeFlowMachine_Ok in Hm as [-> _]. apply flow_states_dom.
Qed.

Lemma states_are_the_declared_names_witness :
  ∃ m, createFlowMachineWithData flow3 0 (Some set_x) None "runtimeFlow" = Ok m ∧
       (is_Some (states m !! "Edit") ↔ "Edit" ∈ map name (normalizeSpecs flow3)) ∧
       (is_Some (states m !! "Gone") ↔ "Gone" ∈ map name (normalizeSpecs flow3)).
Proof.
  destruct (states_are_the_declared_names flow3 0 (Some set_x) None "runtimeFlow")
    as (H1 & _ & _).
  eexists. split; [reflexivity |]. split; by apply H1.
Defined.

(** ** What the running machine keeps *)

Lemma own_table_edge {C V} (specs : list FlowSpec) (m : MachineConfig C V)
    (cur k : string) (ts : list (TransitionConfig C V)) :
  states m = flow_states specs → own_table m cur !! k = Some ts →
  ∃ sp t table, sp ∈ specs ∧ name sp = cur ∧ is_terminal sp = false ∧ t ∈ to sp ∧
    k = "TO_" +:+ t ∧ ts = edge t ∧
    states m !! cur = Some (node table) ∧ table !! k = Some (edge t).
Proof.
  intros Hst. unfold own_table. rewrite Hst.
  destruct (flow_states specs !! cur) as [nd|] eqn:E; [|done].
  pose proof E as E'. apply flow_states_lookup_inv in E' as (sp & Hsp & Hname & ->).
  unfold state_node in *. destruct (is_terminal sp) eqn:Hterm; [done |].
  intros Hk. pose proof Hk as Hk'. apply edges_lookup_inv in Hk' as (t & Ht & -> & ->).
  by exists sp, t, (edges sp).
Qed.

Lemma transition_edge_frame {C V} (m : MachineConfig C V) (s : Snapshot C) (e : Event V)
    (table : gmap string (list (TransitionConfig C V))) (t : string) :
  states m !! snap_value s = Some (node table) →
  table !! type e = Some (edge t) →
  snap_context (transition m s e).1 = snap_context s ∧ (transition m s e).2 = [] ∧
  (snap_value (transition m s e).1 = t ∨ snap_value (transition m s e).1 = snap_value s).
Proof.
  intros Hs Ht. unfold transition, select. rewrite Hs.
  rewrite (next_edge table _ t) by done. simpl. unfold destination. simpl.
  destruct (String.eqb t ""); simpl; [auto |].
  destruct (status_of m t); simpl; auto.
Qed.

Lemma send_stays_declared {C V} (specs : list FlowSpec) (m : MachineConfig C V)
    (a : Actor C) (e : Event V) :
  flow_machine specs m →
  (∀ s t, s ∈ specs → t ∈ to s → t ∈ map name specs) →
  snap_value (getSnapshot a) ∈ map name specs →
  snap_value (getSnapshot (send m a e)) ∈ map name specs.
Proof.
  intros Hfm Htgt Hin. pose proof Hfm as (Hst & _ & Hroot).
  destruct (own_table m (snap_value (getSnapshot a)) !! type e) as [ts|] eqn:E.
  - apply (own_table_edge specs) in E
      as (sp & t & table & Hsp & Hname & Hterm & Ht & Hty & -> & Hnode & Htable); [| done].
    unfold send. destruct (status (getSnapshot a)); [| done | done]. simpl.
    destruct (transition_edge_frame m (getSnapshot a) e table t Hnode Htable)
      as (_ & _ & [-> | ->]); [by apply (Htgt sp) | done].
  - rewrite send_stays; [done | by apply (own_table_exact specs) | done | apply Hroot].
Qed.

(** X13. The actor of a machine the data-carrying builder returned is in
    a declared state after every sequence of events, update events
    included, whatever they carry. *)
Theorem data_actor_stays_declared {D V : Type} (specs : list FlowSpec) (d : D)
    (u : option (gmap string (@Updater D V)))
    (r : option (gmap string (list string))) (i : string)
    (m : MachineConfig (DataContext D) V) (es : list (Event V)) :
  createFlowMachineWithData specs d u r i = Ok m →
  snap_value (getSnapshot (run m (start m) es)) ∈ map name (normalizeSpecs specs).
Proof.
  intros Hm.
  pose proof (createFlowMachineWithData_machine _ _ _ _ _ _ Hm) as (Hfm & _).
  apply createFlowMachineWithData_Ok in Hm as (first & rest & Hs & _ & Hd & Heq).
  unfold run.
  assert (H0 : snap_value (getSnapshot (start m)) ∈ map name (normalizeSpecs specs)).
  { rewrite Heq. simpl. rewrite Hs. left. }
  revert H0. generalize (start m).
  induction es as [|e es IH]; intros a Ha; [done |].
  simpl. apply IH. apply send_stays_declared; [done | | done].
  by apply dangling_nil_inv.
Qed.

Lemma data_actor_stays_declared_witness :
  ∃ m, createFlowMachineWithData flow3 0 (Some set_x) (Some set_x_in_edit) "runtimeFlow"
         = Ok m ∧
       snap_value (getSnapshot (run m (start m)
                     [fire "TO_Edit" 0; fire "SET_X" 5; fire "TO_Gone" 1; fire "TO_Saved" 0]))
         ∈ map name (normalizeSpecs flow3).
Proof.
  eexists. split; [reflexivity |].
  apply (data_actor_stays_declared flow3 0 (Some set_x) (Some set_x_in_edit) "runtimeFlow").
  reflexivity.
Defined.

(** X14. An event whose type no key of the UpdateMap matches, as the
    event type itself or as a descriptor of it (["*"] and the keys that end
    in [".*"]), never changes the attached data and never writes to the
    console, in whatever state and status the actor is: the edges carry no
    actions. *)
Theorem only_update_events_touch_data {D V : Type} (specs : list FlowSpec) (d : D)
    (u : option (gmap string (@Updater D V)))
    (r : option (gmap string (list string))) (i : string)
    (m : MachineConfig (DataContext D) V) (a : Actor (DataContext D)) (e : Event V) :
  createFlowMachineWithData specs d u r i = Ok m →
  (∀ k, is_Some (default ∅ u !! k) → matches_descriptor (type e) k = false) →
  snap_context (getSnapshot (send m a e)) = snap_context (getSnapshot a) ∧
  console (send m a e) = console a.
Proof.
  intros Hm Hk.
  pose proof (createFlowMachineWithData_machine _ _ _ _ _ _ Hm) as (Hfm & _).
  apply createFlowMachineWithData_Ok in Hm as (first & rest & _ & _ & _ & Heq).
  unfold send. destruct (status (getSnapshot a)); [| done | done]. simpl.
  destruct (own_table m (snap_value (getSnapshot a)) !! type e) as [ts|] eqn:E.
  - apply (own_table_edge (normalizeSpecs specs)) in E
      as (sp & t & table & _ & _ & _ & _ & _ & _ & Hnode & Htable); [| apply Hfm].
    destruct (transition_edge_frame m (getSnapshot a) e table t Hnode Htable)
      as (-> & -> & _).
    by rewrite app_nil_r.
  - rewrite transition_ignored; [by rewrite app_nil_r | | done |].
    + by apply (own_table_exact (normalizeSpecs specs)).
    + apply candidates_unmatched. intros k [ts Hts]. apply Hk.
      rewrite Heq in Hts. simpl in Hts. rewrite update_table_lookup in Hts.
      destruct (default ∅ u !! k); [by eexists | done].
Qed.

Lemma only_update_events_touch_data_witness :
  ∃ m, createFlowMachineWithData flow3 0 (Some set_x) None "runtimeFlow" = Ok m ∧
       snap_context (getSnapshot (send m (start m) (fire "TO_Edit" 7)))
         = snap_context (getSnapshot (start m)) ∧
       console (send m (start m) (fire "TO_Edit" 7)) = console (start m).
Proof.
  eexists. split; [reflexivity |].
  apply (only_update_events_touch_data flow3 0 (Some set_x) None "runtimeFlow").
  - reflexivity.
  - intros k [f Hk]. simpl in Hk. unfold set_x in Hk.
    apply lookup_singleton_Some in Hk as [<- _]. reflexivity.
Defined.

(** With the key ["*"] in the UpdateMap every event that the current
    state does not handle is an update event, whatever its type. *)
Example wildcard_update_event :
  ∃ m, createFlowMachineWithData flow3 0 (Some set_any) None "runtimeFlow" = Ok m ∧
       set_any !! "FOO" = None ∧
       data (snap_context (getSnapshot (send m (start m) (fire "FOO" 5)))) = 5 ∧
       send m (start m) (fire "TO_Edit" 5) =
         {| getSnapshot := {| snap_value := "Edit"; snap_context := {| data := 0 |};
                              status := Active |};
            console := [] |}.
Proof. eexists. split; [reflexivity |]. by vm_compute. Qed.

Lemma run_stopped {C V} (m : MachineConfig C V) (a : Actor C) (es : list (Event V)) :
  status (getSnapshot a) ≠ Active → run m a es = a.
Proof.
  intros Hst. unfold run. induction es as [|e es IH]; [done |].
  simpl. by rewrite send_stopped.
Qed.

Lemma start_final {C V} (m : MachineConfig C V) (es : list (Event V)) :
  states m !! initial m = Some final →
  status (getSnapshot (start m)) = Done ∧ run m (start m) es = start m.
Proof.
  intros Hfin. assert (Hd : status (getSnapshot (start m)) = Done).
  { simpl. unfold status_of. by rewrite Hfin. }
  split; [done |]. apply run_stopped. by rewrite Hd.
Qed.

(** X15. When the first spec is terminal (and no later spec repeats its
    name), the machine is complete as soon as the actor starts: the status
    is done from the beginning and no event changes anything, for each of
    the three builders. *)
Theorem terminal_first_spec_never_runs {D V : Type} (first : FlowSpec)
    (rest : list FlowSpec) (d : D)
    (u : option (gmap string (@Updater D V)))
    (r : option (gmap string (list string))) (i : string) :
  is_terminal first = true →
  (∀ specs m es, normalizeSpecs specs = first :: rest → name first ∉ map name rest →
     createFlowMachineWithData specs d u r i = Ok m →
     status (getSnapshot (start m)) = Done ∧ run m (start m) es = start m) ∧
  (∀ log m es, name first ∉ map name rest →
     createFlowMachine (first :: rest) i = (log, Ok m) →
     status (getSnapshot (start m)) = Done ∧ run m (start m) es = start m) ∧
  (∀ log m es, name first ∉ map name rest →
     makeFlowMachine (first :: rest) i = (log, Ok m) →
     status (getSnapshot (start m)) = Done ∧ run m (start m) es = start m).
Proof.
  intros Hterm.
  assert (Hfin : ∀ C V, name first ∉ map name rest →
            flow_states (C:=C) (V:=V) (first :: rest) !! name first = Some final).
  { intros C W Hn. rewrite (flow_states_last [] rest first Hn).
    unfold state_node. by rewrite Hterm. }
  split_and!.
  - intros specs m es Hs Hn Hm.
    apply createFlowMachineWithData_Ok in Hm as (first' & rest' & Hs' & _ & _ & ->).
    rewrite Hs in Hs'. injection Hs' as <- <-.
    apply start_final. simpl. rewrite Hs. by apply Hfin.
  - intros log m es Hn Hm. pose proof Hm as Hm'.
    apply createFlowMachine_Ok in Hm' as [Hst _].
    apply createFlowMachine_machine in Hm as (_ & first' & [= <-] & Hinit).
    apply start_final. rewrite Hst, Hinit. by apply Hfin.
  - intros log m es Hn Hm. pose proof Hm as Hm'.
    apply makeFlowMachine_Ok in Hm' as [Hst _].
    apply makeFlowMachine_machine in Hm as (_ & first' & [= <-] & Hinit).
    apply start_final. rewrite Hst, Hinit. by apply Hfin.
Qed.

Lemma terminal_first_spec_never_runs_witness :
  (∃ m, createFlowMachineWithData flow_done_first 0 (Some set_x) None "runtimeFlow" = Ok m ∧
        status (getSnapshot (start m)) = Done ∧
        run m (start m) [fire "TO_Init" 0; fire "SET_X" 5] = start m) ∧
  (∃ log m, createFlowMachine flow_done_first "runtimeFlow" = (log, Ok m) ∧
        status (getSnapshot (start m)) = Done ∧
        run m (start m) [{| type := "TO_Init"; value := tt |}] = start m) ∧
  (∃ log m, makeFlowMachine flow_done_first "runtimeFlow" = (log, Ok m) ∧
        status (getSnapshot (start m)) = Done ∧
        run m (start m) [{| type := "TO_Init"; value := tt |}] = start m).
Proof.
  destruct (terminal_first_spec_never_runs
              {| name := "Done"; to := ["Init"]; terminal := Some true |}
              [ {| name := "Init"; to := ["Done"]; terminal := Some false |} ]
              0 (Some set_x) None "runtimeFlow" eq_refl) as (H1 & _ & _).
  destruct (terminal_first_spec_never_runs (V:=nat)
              {| name := "Done"; to := ["Init"]; terminal := Some true |}
              [ {| name := "Init"; to := ["Done"]; terminal := None |} ]
              0 None None "runtimeFlow" eq_refl) as (_ & H2 & H3).
  assert (Hn : "Done" ∉ ["Init"]).
  { apply (bool_decide_unpack _). by vm_compute. }
  split_and!.
  - eexists. split; [reflexivity |].
    apply (H1 flow_done_first); [reflexivity | exact Hn | reflexivity].
  - eexists _, _. split; [reflexivity |]. eapply H2; [exact Hn | reflexivity].
  - eexists _, _. split; [reflexivity |]. eapply H3; [exact Hn | reflexivity].
Defined.

(** ** The machine walks the declared graph *)

Lemma find_by_name (specs : list FlowSpec) (sp : FlowSpec) :
  NoDup (map name specs) → sp ∈ specs →
  List.find (λ s, String.eqb (name s) (name sp)) specs = Some sp.
Proof.
  intros Hnd Hsp. destruct (List.find _ specs) as [s|] eqn:E.
  - apply find_some in E as [Hs Heq]. apply String.eqb_eq in Heq.
    apply list_elem_of_In in Hs. f_equal. by apply (name_inj specs).
  - apply list_elem_of_In in Hsp.
    pose proof (find_none _ _ E sp Hsp) as Hf. simpl in Hf.
    by rewrite String.eqb_refl in Hf.
Qed.

Lemma find_target (tos : list string) (e : string) :
  match List.find (λ t, String.eqb ("TO_" +:+ t) e) tos with
  | Some t => t ∈ tos ∧ e = "TO_" +:+ t
  | None => ∀ t, t ∈ tos → e ≠ "TO_" +:+ t
  end.
Proof.
  destruct (List.find _ tos) as [t|] eqn:E.
  - apply find_some in E as [Ht Heq]. apply String.eqb_eq in Heq.
    apply list_elem_of_In in Ht. by split.
  - intros t Ht Heq. apply list_elem_of_In in Ht.
    pose proof (find_none _ _ E t Ht) as Hf. cbv beta in Hf.
    subst e. by rewrite String.eqb_refl in Hf.
Qed.

(** One event: the actor follows the walk and keeps its step. *)
Lemma send_graph_step {C V} (specs : list FlowSpec) (m : MachineConfig C V)
    (a : Actor C) (e : Event V) :
  valid specs → flow_machine specs m → quiet_root m →
  in_step specs m a →
  snap_value (getSnapshot (send m a e)) = graph_step specs (snap_value (getSnapshot a)) (type e) ∧
  in_step specs m (send m a e).
Proof.
  intros Hv (Hst & _ & _) Hquiet [Hin Hstatus]. pose proof Hv as (_ & Hnd & Htgt).
  pose proof Hin as Hin0.
  apply list_elem_of_In, in_map_iff in Hin as (sp & Hname & Hsp).
  apply list_elem_of_In in Hsp.
  assert (Hnode : states m !! snap_value (getSnapshot a) = Some (state_node sp)).
  { rewrite Hst, <- Hname. by apply flow_states_lookup. }
  unfold graph_step. rewrite <- Hname, (find_by_name specs sp Hnd Hsp), Hname.
  unfold status_of in Hstatus. rewrite Hnode in Hstatus. unfold state_node in *.
  unfold send. destruct (is_terminal sp) eqn:Hterm.
  - rewrite Hstatus. split; [done |]. split; [done |].
    unfold status_of. by rewrite Hnode, Hstatus.
  - rewrite Hstatus. simpl. pose proof (find_target (to sp) (type e)) as Hfind.
    destruct (List.find _ (to sp)) as [t|]; simpl.
    + destruct Hfind as [Ht Hty]. unfold follow.
      destruct (String.eqb_spec t "") as [->|Hne].
      * rewrite (transition_edge_empty m _ e (edges sp)); [| done |].
        -- split; [done |]. split; simpl; [done |].
           rewrite Hstatus. unfold status_of. by rewrite Hnode.
        -- rewrite Hty. by apply edges_lookup.
      * rewrite (transition_edge m _ e (edges sp) t); [| done | | done |].
        -- split; [done |]. split; simpl; [by apply (Htgt sp) | done].
        -- rewrite Hty. by apply edges_lookup.
        -- rewrite Hst. apply flow_states_declared. by apply (Htgt sp).
    + assert (Hown : own_table m (snap_value (getSnapshot a)) !! type e = None).
      { unfold own_table. rewrite Hnode. by apply edges_lookup_None. }
      destruct (Hquiet (getSnapshot a) e Hown) as [Hval Hstat].
      split; [done |]. split; simpl.
      * by rewrite Hval.
      * rewrite Hstat, Hval, Hstatus. unfold status_of. by rewrite Hnode.
Qed.

Lemma run_walks {C V} (specs : list FlowSpec) (m : MachineConfig C V)
    (es : list (Event V)) :
  valid specs → flow_machine specs m → quiet_root m →
  initial m ∈ map name specs →
  snap_value (getSnapshot (run m (start m) es)) = walk specs (initial m) (map type es).
Proof.
  intros Hv Hfm Hquiet Hinit. unfold run, walk.
  assert (H0 : in_step specs m (start m)) by by split.
  change (initial m) with (snap_value (getSnapshot (start m))).
  revert H0. generalize (start m). induction es as [|e es IH]; intros a Ha; [done |].
  simpl. destruct (send_graph_step specs m a e Hv Hfm Hquiet Ha) as [Hstep Hin].
  rewrite <- Hstep. by apply IH.
Qed.

Lemma quiet_root_empty {C V} (specs : list FlowSpec) (m : MachineConfig C V) :
  flow_machine specs m → on m = ∅ → quiet_root m.
Proof.
  intros Hfm Hon s e Hown. rewrite transition_ignored; [done | | done |].
  - by apply (own_table_exact specs).
  - rewrite Hon. apply candidates_none; [apply exact_table_empty | apply lookup_empty].
Qed.

Lemma quiet_root_free {D V} (specs : list FlowSpec) (m : MachineConfig (DataContext D) V)
    (u : option (gmap string (@Updater D V))) :
  flow_machine specs m → on m = update_table u None → quiet_root m.
Proof.
  intros Hfm Hon s e Hown. unfold transition.
  rewrite select_root; [| by apply (own_table_exact specs) | done].
  unfold next. simpl.
  destruct (candidates (on m) (type e)) as [|t ts] eqn:E; [done |].
  assert (Hin : t ∈ candidates (on m) (type e)) by (rewrite E; left).
  apply candidates_elem in Hin as (k & ts' & Hk & Ht & _).
  rewrite Hon, update_table_lookup in Hk.
  destruct (default ∅ u !! k) as [f|]; [| done]. injection Hk as <-.
  apply list_elem_of_singleton in Ht. by subst t.
Qed.

(** X16. For a valid spec set whose first name is not empty and whose
    names have no ['.'], ['\'] or leading ['#'] in them, the current state
    after any sequence of events, none of them of a type the runtime keeps
    for itself, is the end of the walk on the declared graph that starts at
    the first spec's name: each event [TO_t] follows the edge to [t] when
    the state walked to is not terminal and lists [t] (an edge to the empty
    name leads nowhere), and every other event stays.  This holds for the
    two plain builders, and for the data-carrying builder when no
    RestrictionMap is given. *)
Theorem machine_walks_the_graph {D V : Type} (specs : list FlowSpec) (d : D)
    (u : option (gmap string (@Updater D V))) (i : string) :
  (valid (normalizeSpecs specs) → plain (normalizeSpecs specs) →
     ∀ m es, createFlowMachineWithData specs d u None i = Ok m →
       Forall (λ e, reserved (type e) = false) es →
       snap_value (getSnapshot (run m (start m) es)) =
         walk (normalizeSpecs specs) (initial m) (map type es)) ∧
  (valid specs → plain specs →
     ∀ log m es, createFlowMachine specs i = (log, Ok m) →
       Forall (λ e, reserved (type e) = false) es →
       snap_value (getSnapshot (run m (start m) es)) = walk specs (initial m) (map type es)) ∧
  (valid specs → plain specs →
     ∀ log m es, makeFlowMachine specs i = (log, Ok m) →
       Forall (λ e, reserved (type e) = false) es →
       snap_value (getSnapshot (run m (start m) es)) = walk specs (initial m) (map type es)).
Proof.
  split_and!.
  - intros Hv _ m es Hm _.
    pose proof (createFlowMachineWithData_machine _ _ _ _ _ _ Hm) as (Hfm & _).
    apply createFlowMachineWithData_Ok in Hm as (first & rest & Hs & _ & _ & Heq).
    apply run_walks; [done | done | apply (quiet_root_free _ _ u Hfm); by rewrite Heq |].
    rewrite Heq. simpl. rewrite Hs. left.
  - intros Hv _ log m es Hm _. pose proof Hm as Hm'.
    apply createFlowMachine_Ok in Hm' as [Hst Hon].
    apply createFlowMachine_machine in Hm as (Hfm & first & Hhd & Hinit).
    apply run_walks; [done | done | by apply (quiet_root_empty specs) |].
    rewrite Hinit. destruct specs as [|first' rest]; [done |]. injection Hhd as ->. left.
  - intros Hv _ log m es Hm _. pose proof Hm as Hm'.
    apply makeFlowMachine_Ok in Hm' as [Hst Hon].
    apply makeFlowMachine_machine in Hm as (Hfm & first & Hhd & Hinit).
    apply run_walks; [done | done | by apply (quiet_root_empty specs) |].
    rewrite Hinit. destruct specs as [|first' rest]; [done |]. injection Hhd as ->. left.
Qed.

Lemma machine_walks_the_graph_witness :
  (∃ m, createFlowMachineWithData flow3 0 (Some set_x) None "runtimeFlow" = Ok m ∧
        snap_value (getSnapshot (run m (start m)
                      [fire "TO_Saved" 0; fire "TO_Edit" 0; fire "SET_X" 5; fire "TO_Saved" 0]))
          = walk (normalizeSpecs flow3) (initial m) ["TO_Saved"; "TO_Edit"; "SET_X"; "TO_Saved"]) ∧
  (∃ log m, createFlowMachine flow3 "runtimeFlow" = (log, Ok m) ∧
        snap_value (getSnapshot (run m (start m)
                      [ {| type := "TO_Edit"; value := tt |};
                        {| type := "TO_Saved"; value := tt |} ]))
          = walk flow3 (initial m) ["TO_Edit"; "TO_Saved"]) ∧
  (∃ log m, makeFlowMachine flow3 "runtimeFlow" = (log, Ok m) ∧
        snap_value (getSnapshot (run m (start m)
                      [ {| type := "TO_Edit"; value := tt |};
                        {| type := "TO_Saved"; value := tt |} ]))
          = walk flow3 (initial m) ["TO_Edit"; "TO_Saved"]).
Proof.
  destruct (machine_walks_the_graph flow3 0 (Some set_x) "runtimeFlow") as (H1 & H2 & H3).
  split_and!.
  - eexists. split; [reflexivity |].
    apply (H1 flow3_normalized_valid flow3_normalized_plain _
             [fire "TO_Saved" 0; fire "TO_Edit" 0; fire "SET_X" 5; fire "TO_Saved" 0]).
    + reflexivity.
    + by repeat constructor.
  - eexists _, _. split; [reflexivity |].
    eapply (H2 flow3_valid flow3_plain _ _
              [ {| type := "TO_Edit"; value := tt |}; {| type := "TO_Saved"; value := tt |} ]).
    + reflexivity.
    + by repeat constructor.
  - eexists _, _. split; [reflexivity |].
    eapply (H3 flow3_valid flow3_plain _ _
              [ {| type := "TO_Edit"; value := tt |}; {| type := "TO_Saved"; value := tt |} ]).
    + reflexivity.
    + by repeat constructor.
Defined.

(** The walk over the spec set with an edge to the empty name: [TO_]
    leads nowhere. *)
Example walk_empty_target :
  ∃ m, createFlowMachine flow_empty_target "runtimeFlow" = ([], Ok m) ∧
       walk flow_empty_target "Init" ["TO_"; "TO_Init"] = "Init" ∧
       snap_value (getSnapshot (run m (start m) [ {| type := "TO_"; value := tt |};
                                                  {| type := "TO_Init"; value := tt |} ]))
         = "Init".
Proof. eexists. split; [reflexivity |]. by vm_compute. Qed.

(** ** The side panel of the data-carrying runner *)

Lemma outgoing_of_spec (specs : list FlowSpec) (sp : FlowSpec) :
  NoDup (map name specs) → sp ∈ specs → outgoing specs (name sp) = to sp.
Proof. intros Hnd Hsp. unfold outgoing. by rewrite find_by_name. Qed.

(** X17. For a valid spec set whose first name is not empty and whose
    names have no ['.'], ['\'] or leading ['#'] in them, the panel agrees
    with the machine.  Before the actor exists it shows the state the actor
    will start in.  While the actor runs in a state that is not terminal,
    the buttons are the targets of that state; clicking the button of a
    target [t] that is not the empty name moves the current state to [t],
    and an event that changes the current state is the event of one of the
    buttons. *)
Theorem panel_buttons_are_the_edges {D V : Type} (specs : list FlowSpec) (d : D)
    (u : option (gmap string (@Updater D V)))
    (r : option (gmap string (list string))) (i : string)
    (m : MachineConfig (DataContext D) V) (a : Actor (DataContext D)) (sp : FlowSpec) :
  valid (normalizeSpecs specs) → plain (normalizeSpecs specs) →
  createFlowMachineWithData specs d u r i = Ok m →
  sp ∈ normalizeSpecs specs → is_terminal sp = false →
  snap_value (getSnapshot a) = name sp → status (getSnapshot a) = Active →
  let current := panel_current (Some (getSnapshot a)) (normalizeSpecs specs) in
  panel_current (C:=DataContext D) None (normalizeSpecs specs)
    = snap_value (getSnapshot (start m)) ∧
  outgoing (normalizeSpecs specs) current = to sp ∧
  (∀ t v, t ∈ outgoing (normalizeSpecs specs) current → t ≠ "" →
     snap_value (getSnapshot (send m a {| type := "TO_" +:+ t; value := v |})) = t) ∧
  (∀ e, snap_value (getSnapshot (send m a e)) ≠ current →
     type e ∈ buttons (normalizeSpecs specs) current).
Proof.
  intros Hv _ Hm Hsp Hterm Hcur Hact. pose proof Hv as (_ & Hnd & Htgt). cbv zeta. simpl.
  rewrite Hcur, (outgoing_of_spec _ sp Hnd Hsp).
  pose proof (createFlowMachineWithData_machine _ _ _ _ _ _ Hm) as (Hfm & _).
  apply createFlowMachineWithData_Ok in Hm as (first & rest & Hs & _ & _ & Heq).
  split_and!.
  - rewrite Hs, Heq. done.
  - done.
  - intros t v Ht Hne.
    destruct (flow_fires_edges (normalizeSpecs specs) m Hv Hfm sp t Hsp Hterm Ht)
      as [_ Hfire].
    by destruct (Hfire Hne a v Hcur Hact) as (Hval & _ & _).
  - intros e Hmoved. unfold buttons. rewrite (outgoing_of_spec _ sp Hnd Hsp).
    destruct (decide (type e ∈ map (λ t, "TO_" +:+ t) (to sp))) as [|Hnot]; [done |].
    destruct Hmoved. rewrite <- Hcur. apply send_stays.
    + by apply (own_table_exact (normalizeSpecs specs)).
    + apply (own_table_no_edge (normalizeSpecs specs)); [apply Hfm |].
      intros s Hs' Hname. right. intros t Ht Hty. apply Hnot.
      rewrite Hcur in Hname. rewrite (name_inj _ s sp Hnd Hs' Hsp Hname) in Ht.
      apply list_elem_of_In, in_map_iff. exists t. by rewrite <- list_elem_of_In.
    + apply Hfm.
Qed.

Lemma panel_buttons_are_the_edges_witness :
  ∃ m, createFlowMachineWithData flow3 0 (Some set_x) (Some set_x_in_edit) "runtimeFlow"
         = Ok m ∧
       let a := send m (start m) (fire "TO_Edit" 0) in
       let current := panel_current (Some (getSnapshot a)) (normalizeSpecs flow3) in
       panel_current (C:=DataContext nat) None (normalizeSpecs flow3)
         = snap_value (getSnapshot (start m)) ∧
       outgoing (normalizeSpecs flow3) current = ["Saved"] ∧
       (∀ t v, t ∈ outgoing (normalizeSpecs flow3) current → t ≠ "" →
          snap_value (getSnapshot (send m a {| type := "TO_" +:+ t; value := v |})) = t) ∧
       (∀ e, snap_value (getSnapshot (send m a e)) ≠ current →
          type e ∈ buttons (normalizeSpecs flow3) current).
Proof.
  eexists. split; [reflexivity |].
  apply (panel_buttons_are_the_edges flow3 0 (Some set_x) (Some set_x_in_edit) "runtimeFlow"
           _ _ {| name := "Edit"; to := ["Saved"]; terminal := Some false |}).
  - exact flow3_normalized_valid.
  - exact flow3_normalized_plain.
  - reflexivity.
  - right. left.
  - reflexivity.
  - reflexivity.
  - reflexivity.
Defined.



(** ** The unrestricted machine, state and data *)

Lemma exact_update_table {D V} (u : option (gmap string (@Updater D V)))
    (r : option (gmap string (list string))) :
  exact_table (default ∅ u) → exact_table (update_table u r).
Proof.
  intros Hex k ev [ts Hk]. apply Hex. rewrite update_table_lookup in Hk.
  destruct (default ∅ u !! k); [by eexists | done].
Qed.

Lemma exact_table_intro {A} (table : gmap string A) :
  (∀ k, is_Some (table !! k) → String.eqb k "*" = false ∧ ends_with_dot_star k = false) →
  exact_table table.
Proof.
  intros Hkeys k ev Hk. destruct (Hkeys k Hk) as [Hstar Hdot].
  unfold matches_descriptor. rewrite Hstar, Hdot, !orb_false_r. apply String.eqb_eq.
Qed.

Lemma send_data_step {D V} (specs : list FlowSpec)
    (u : option (gmap string (@Updater D V)))
    (m : MachineConfig (DataContext D) V) (a : Actor (DataContext D)) (e : Event V) :
  valid specs → flow_machine specs m → on m = update_table u None →
  exact_table (default ∅ u) →
  in_step specs m a →
  (snap_value (getSnapshot (send m a e)), data (snap_context (getSnapshot (send m a e)))) =
    data_step specs (default ∅ u)
      (snap_value (getSnapshot a), data (snap_context (getSnapshot a))) e ∧
  in_step specs m (send m a e).
Proof.
  intros Hv Hfm Hon Hex [Hin Hstatus]. pose proof Hv as (_ & Hnd & Htgt).
  pose proof Hfm as (Hst & _ & _). pose proof Hin as Hin0.
  apply list_elem_of_In, in_map_iff in Hin as (sp & Hname & Hsp).
  apply list_elem_of_In in Hsp.
  assert (Hnode : states m !! snap_value (getSnapshot a) = Some (state_node sp)).
  { rewrite Hst, <- Hname. by apply flow_states_lookup. }
  unfold data_step. cbn [fst snd].
  rewrite <- Hname, (find_by_name specs sp Hnd Hsp), Hname.
  unfold status_of in Hstatus. rewrite Hnode in Hstatus. unfold state_node in *.
  unfold send. destruct (is_terminal sp) eqn:Hterm.
  - rewrite Hstatus. split; [done |]. split; [done |].
    unfold status_of. by rewrite Hnode, Hstatus.
  - rewrite Hstatus. simpl. pose proof (find_target (to sp) (type e)) as Hfind.
    destruct (List.find _ (to sp)) as [t|]; simpl.
    + destruct Hfind as [Ht Hty]. unfold follow.
      destruct (String.eqb_spec t "") as [->|Hne].
      * rewrite (transition_edge_empty m _ e (edges sp)); [| done |].
        -- split; [done |]. split; simpl; [done |].
           rewrite Hstatus. unfold status_of. by rewrite Hnode.
        -- rewrite Hty. by apply edges_lookup.
      * rewrite (transition_edge m _ e (edges sp) t); [| done | | done |].
        -- split; [done |]. split; simpl; [by apply (Htgt sp) | done].
        -- rewrite Hty. by apply edges_lookup.
        -- rewrite Hst. apply flow_states_declared. by apply (Htgt sp).
    + assert (Hown : own_table m (snap_value (getSnapshot a)) !! type e = None).
      { unfold own_table. rewrite Hnode. by apply edges_lookup_None. }
      pose proof (own_table_exact specs m (snap_value (getSnapshot a)) Hfm) as Hexact.
      destruct (default ∅ u !! type e) as [f|] eqn:E.
      * rewrite (transition_free_update m _ e f); [| done | done |].
        -- simpl. split; [done |]. split; simpl; [done |].
           rewrite Hstatus. unfold status_of. by rewrite Hnode.
        -- rewrite Hon, update_table_lookup. unfold Updater in *. by rewrite E.
      * rewrite transition_ignored; [| done | done |].
        -- simpl. split; [done |]. split; simpl; [done |].
           rewrite Hstatus. unfold status_of. by rewrite Hnode.
        -- rewrite Hon. apply candidates_none; [by apply exact_update_table |].
           rewrite update_table_lookup. unfold Updater in *. by rewrite E.
Qed.

(** X19. Without a RestrictionMap, for a valid spec set whose first name
    is not empty and whose names have no ['.'], ['\'] or leading ['#'] in
    them, and an UpdateMap whose keys are event types (none is ["*"] or
    ends in [".*"], the descriptors that match other event types as well),
    the state and the data of the actor after any sequence of events, none
    of them of a type the runtime keeps for itself, are those of the walk
    with data that starts at the first spec's name with the initial data:
    an event is first tried as an edge event of the current state (an edge
    to the empty name leads nowhere), then as an update event, and it is
    dropped once a terminal state has been reached. *)
Theorem unrestricted_machine_walks_with_data {D V : Type} (specs : list FlowSpec) (d : D)
    (u : option (gmap string (@Updater D V))) (i : string)
    (m : MachineConfig (DataContext D) V) (es : list (Event V)) :
  valid (normalizeSpecs specs) → plain (normalizeSpecs specs) →
  (∀ k, is_Some (default ∅ u !! k) →
        String.eqb k "*" = false ∧ ends_with_dot_star k = false) →
  createFlowMachineWithData specs d u None i = Ok m →
  Forall (λ e, reserved (type e) = false) es →
  (snap_value (getSnapshot (run m (start m) es)),
   data (snap_context (getSnapshot (run m (start m) es)))) =
    foldl (data_step (normalizeSpecs specs) (default ∅ u)) (initial m, d) es.
Proof.
  intros Hv _ Hkeys Hm _.
  pose proof (createFlowMachineWithData_machine _ _ _ _ _ _ Hm) as (Hfm & _).
  apply createFlowMachineWithData_Ok in Hm as (first & rest & Hs & _ & _ & Heq).
  assert (Hon : on m = update_table u None) by by rewrite Heq.
  assert (H0 : in_step (normalizeSpecs specs) m (start m)).
  { split; [| done]. rewrite Heq. simpl. rewrite Hs. left. }
  assert (Hd : d = data (snap_context (getSnapshot (start m)))) by by rewrite Heq.
  rewrite Hd.
  change (initial m) with (snap_value (getSnapshot (start m))).
  unfold run. revert H0. generalize (start m).
  induction es as [|e es IH]; intros a Ha; [done |].
  simpl.
  destruct (send_data_step (normalizeSpecs specs) u m a e Hv Hfm Hon
              (exact_table_intro _ Hkeys) Ha) as [Hstep Hin].
  rewrite <- Hstep. by apply IH.
Qed.

Lemma unrestricted_machine_walks_with_data_witness :
  ∃ m, createFlowMachineWithData flow3 0 (Some set_x) None "runtimeFlow" = Ok m ∧
       (snap_value (getSnapshot (run m (start m)
                      [fire "SET_X" 5; fire "TO_Edit" 0; fire "TO_Saved" 0; fire "SET_X" 9])),
        data (snap_context (getSnapshot (run m (start m)
                      [fire "SET_X" 5; fire "TO_Edit" 0; fire "TO_Saved" 0; fire "SET_X" 9]))))
       = foldl (data_step (normalizeSpecs flow3) (default ∅ (Some set_x))) (initial m, 0)
               [fire "SET_X" 5; fire "TO_Edit" 0; fire "TO_Saved" 0; fire "SET_X" 9].
Proof.
  eexists. split; [reflexivity |].
  apply (unrestricted_machine_walks_with_data flow3 0 (Some set_x) "runtimeFlow").
  - exact flow3_normalized_valid.
  - exact flow3_normalized_plain.
  - intros k [f Hk]. simpl in Hk. unfold set_x in Hk.
    apply lookup_singleton_Some in Hk as [<- _]. by split.
  - reflexivity.
  - by repeat constructor.
Defined.

Example walk_with_data_example :
  foldl (data_step (normalizeSpecs flow3) set_x) ("Init", 0)
        [fire "SET_X" 5; fire "TO_Edit" 0; fire "TO_Saved" 0; fire "SET_X" 9]
    = ("Saved", 5).
Proof. by vm_compute. Qed.

(** ** The two plain builders side by side *)

(** X20. The plain builder and the console-only builder return the same
    machine (or the same error) for the same specs; they differ in the
    console only, where the plain builder writes one more line when it
    finds a repeated, non-empty name. *)
Theorem plain_builders_agree (specs : list FlowSpec) (i : string) :
  (createFlowMachine specs i).2 = (makeFlowMachine specs i).2 ∧
  length (createFlowMachine specs i).1 =
    (if truthy (find_dup (map name specs)) then 1 else 0)
    + length (makeFlowMachine specs i).1.
Proof.
  unfold createFlowMachine, makeFlowMachine. destruct specs as [|first rest]; [done |].
  split; [done |]. cbn [fst].
  unfold Plain.unknown_targets, Basic.unknown_targets.
  rewrite (per_dangling_edge
             (λ e, (ConsoleError,
                    "[FlowRunner] Unknown target '" +:+ e.2 +:+ "' from '" +:+ e.1 +:+ "'."))).
  rewrite (per_dangling_edge
             (λ e, (ConsoleError,
                    "[FlowMachine] Unknown target '" +:+ e.2 +:+ "' from state '" +:+ e.1 +:+ "'."))).
  rewrite length_app, !length_map. by destruct (truthy _).
Qed.

(** X21. The events of a state depend on the set of its targets only: a
    target listed twice gives one event, and the order of the list does not
    matter. *)
Theorem edges_depend_on_target_set {C V : Type} (s1 s2 : FlowSpec) :
  (∀ t, t ∈ to s1 ↔ t ∈ to s2) → edges (C:=C) (V:=V) s1 = edges s2.
Proof.
  intros Hsame. apply map_eq. intros k.
  destruct (edges (C:=C) (V:=V) s1 !! k) as [ts|] eqn:E1.
  - apply edges_lookup_inv in E1 as (t & Ht & -> & ->).
    symmetry. apply edges_lookup. by apply Hsame.
  - destruct (edges (C:=C) (V:=V) s2 !! k) as [ts|] eqn:E2; [|done].
    apply edges_lookup_inv in E2 as (t & Ht & -> & ->).
    rewrite edges_lookup in E1; [done |]. by apply Hsame.
Qed.

Lemma edges_depend_on_target_set_witness :
  edges (C:=unit) (V:=unit) {| name := "Init"; to := ["Edit"; "Saved"; "Edit"]; terminal := None |}
  = edges {| name := "Init"; to := ["Saved"; "Edit"]; terminal := None |}.
Proof.
  apply edges_depend_on_target_set. intros t. simpl.
  rewrite !elem_of_cons. rewrite elem_of_nil. tauto.
Defined.
